(** * short-form: the video service (src/video/video.service.ts) and its
      controller (src/video/video.controller.ts), embedded in Rocq.

    Strings are JavaScript strings: finite sequences of UTF-16 code units.
    The object-storage bucket is an association list in listing order, the
    upload DTO lives in a heap of objects addressed by reference, and the
    methods of [VideoService] are written in a state-and-exception monad
    over that world.

    The bucket is a reliable store: writing, listing and downloading
    succeed, so the exceptions of the model are the ones the JavaScript
    itself raises. The calls to the logger are left out. What the engine
    and the libraries compute ([JSON.parse], [JSON.stringify], the [Date]
    parser, the Unicode case tables, the configured bucket name) is a
    parameter of the development, the class [Runtime]. *)

From Stdlib Require Import ZArith NArith List Ascii String Lia Bool.
From Stdlib Require Import Sorting.Sorted Sorting.Permutation DecimalString.
From Stdlib Require DecimalZ DecimalPos.
From stdpp Require Import gmap list.
Import ListNotations.

Local Open Scope N_scope.

(** ** JavaScript strings *)

(** A string is the list of its UTF-16 code units. *)
Definition jsstring := list N.

(** An ASCII literal of the source, as code units. *)
Definition lit (s : string) : jsstring :=
  List.map N_of_ascii (list_ascii_of_string s).

Definition between (lo hi c : N) : bool := (lo <=? c) && (c <=? hi).

Definition isUpper (c : N) : bool := between 65 90 c.
Definition isLower (c : N) : bool := between 97 122 c.
Definition isDigit (c : N) : bool := between 48 57 c.
(** [가-힣]: the Hangul syllables U+AC00..U+D7A3. *)
Definition isHangul (c : N) : bool := between 44032 55203 c.
Definition isHyphen (c : N) : bool := c =? 45.

(** The regular-expression class [\s], which is also the set that
    [String.prototype.trim] strips: WhiteSpace and LineTerminator. *)
Definition isSpace (c : N) : bool :=
  between 9 13 c || (c =? 32) || (c =? 160) || (c =? 5760)
  || between 8192 8202 c || (c =? 8232) || (c =? 8233) || (c =? 8239)
  || (c =? 8287) || (c =? 12288) || (c =? 65279).

(** The complement of the class [[^a-zA-Z0-9가-힣\s-]]. *)
Definition isAllowed (c : N) : bool :=
  isLower c || isUpper c || isDigit c || isHangul c || isSpace c || isHyphen c.

(** [s.replace(/[^a-zA-Z0-9가-힣\s-]/g, '')] *)
Definition stripSpecial (s : jsstring) : jsstring := List.filter isAllowed s.

(** [s.replace(/\s+/g, '-')]: every maximal run of white space becomes one
    hyphen. [inRun] tells that the previous code unit was white space, whose
    run has already been replaced. *)
Fixpoint hyphenateFrom (inRun : bool) (s : jsstring) : jsstring :=
  match s with
  | [] => []
  | c :: s' =>
      if isSpace c
      then (if inRun then hyphenateFrom true s' else 45 :: hyphenateFrom true s')
      else c :: hyphenateFrom false s'
  end.

Definition hyphenate (s : jsstring) : jsstring := hyphenateFrom false s.

Definition lowerUnit (c : N) : N := if isUpper c then c + 32 else c.

Definition isAscii (c : N) : bool := c <? 128.

(** [s.split(sep)] for a separator of one code unit. The empty string splits
    into one empty segment. *)
Fixpoint split (sep : N) (s : jsstring) : list jsstring :=
  match s with
  | [] => [[]]
  | c :: s' =>
      if c =? sep then [] :: split sep s'
      else match split sep s' with
           | seg :: segs => (c :: seg) :: segs
           | [] => [[c]]
           end
  end.

Fixpoint trimStart (s : jsstring) : jsstring :=
  match s with
  | c :: s' => if isSpace c then trimStart s' else s
  | [] => []
  end.

Definition trimEnd (s : jsstring) : jsstring := rev (trimStart (rev s)).

(** [s.trim()] *)
Definition trim (s : jsstring) : jsstring := trimEnd (trimStart s).

(** [s.startsWith(p)] *)
Fixpoint startsWith (p s : jsstring) : bool :=
  match p, s with
  | [], _ => true
  | _ :: _, [] => false
  | a :: p', b :: s' => (a =? b) && startsWith p' s'
  end.

(** [s.endsWith(p)] *)
Definition endsWith (p s : jsstring) : bool := startsWith (rev p) (rev s).

(** [s.includes(p)] *)
Fixpoint includes (p s : jsstring) : bool :=
  startsWith p s ||
  match s with
  | [] => false
  | _ :: s' => includes p s'
  end.

(** [String(n)] for an integer-valued number. *)
Definition numberToString (n : Z) : jsstring :=
  lit (DecimalString.NilZero.string_of_int (Z.to_int n)).

(** [s.padStart(len, fill)] for a filler of one code unit. *)
Definition padStart (len : nat) (fill : N) (s : jsstring) : jsstring :=
  repeat fill (len - length s) ++ s.

(** ** JavaScript numbers, as far as the service meets them

    [count] is either an integer or NaN ([parseInt] produces nothing else
    short of overflow, and an integer too large for a double still compares
    above every array length, which is all [Math.min] asks of it). *)
Inductive jsnum : Type :=
| NaN
| Int (z : Z).

(** [Math.min(a, b)] *)
Definition Math_min (a b : jsnum) : jsnum :=
  match a, b with
  | Int x, Int y => Int (Z.min x y)
  | _, _ => NaN
  end.

(** [b - a] on numbers. *)
Definition jsminus (b a : jsnum) : jsnum :=
  match b, a with
  | Int x, Int y => Int (x - y)
  | _, _ => NaN
  end.

(** [arr.slice(0, end)]: the end is converted with ToIntegerOrInfinity (NaN
    becomes 0), a negative end counts from the back of the array, and the
    result is clamped to the array. *)
Definition slice0 {A} (arr : list A) (end_ : jsnum) : list A :=
  let len := Z.of_nat (length arr) in
  let relativeEnd := match end_ with NaN => 0%Z | Int z => z end in
  let final := if (relativeEnd <? 0)%Z then Z.max (len + relativeEnd) 0
               else Z.min relativeEnd len in
  firstn (Z.to_nat final) arr.

(** [parseInt(s, 10)]: leading white space is skipped, one sign is read, then
    the longest run of decimal digits; without a digit the result is NaN. *)
Fixpoint takeDigits (s : jsstring) : jsstring :=
  match s with
  | c :: s' => if isDigit c then c :: takeDigits s' else []
  | [] => []
  end.

Definition digitsValue (ds : jsstring) : Z :=
  fold_left (fun acc c => (10 * acc + Z.of_N (c - 48))%Z) ds 0%Z.

Definition parseInt10 (s : jsstring) : jsnum :=
  let t := trimStart s in
  let '(sign, body) :=
    match t with
    | 45 :: t' => ((-1)%Z, t')
    | 43 :: t' => (1%Z, t')
    | _ => (1%Z, t)
    end in
  match takeDigits body with
  | [] => NaN
  | ds => Int (sign * digitsValue ds)
  end.

(** [arr.sort(comparefn)]: a comparator result of NaN counts as 0, and the
    sort is stable. An element goes in front of the first kept element that
    must not precede it; folding from the right keeps equal elements in
    their original order. *)
Definition compareValue (v : jsnum) : Z :=
  match v with NaN => 0%Z | Int z => z end.

Fixpoint insertSorted {A} (comparefn : A -> A -> jsnum) (x : A) (l : list A)
  : list A :=
  match l with
  | [] => [x]
  | y :: l' =>
      if (0 <? compareValue (comparefn x y))%Z
      then y :: insertSorted comparefn x l'
      else x :: l
  end.

Definition arraySort {A} (comparefn : A -> A -> jsnum) (arr : list A) : list A :=
  fold_right (insertSorted comparefn) [] arr.

(** [[arr[i], arr[j]] = [arr[j], arr[i]]]; both indices are inside the array
    wherever the shuffle uses it. *)
Definition swap {A} (i j : nat) (arr : list A) : list A :=
  match arr !! i, arr !! j with
  | Some a, Some b => <[j:=a]> (<[i:=b]> arr)
  | _, _ => arr
  end.

(** The Fisher-Yates loop [for (let i = length - 1; i > 0; i--)]. [random i]
    stands for the draw of [Math.random()] in the iteration at index [i];
    [Math.floor(Math.random() * (i + 1))] can be any index from 0 to [i]
    and is taken as [random i mod (i + 1)]. *)
Fixpoint shuffleFrom {A} (random : nat -> nat) (i : nat) (arr : list A) : list A :=
  match i with
  | O => arr
  | S i' => shuffleFrom random i' (swap i (random i mod (i + 1))%nat arr)
  end.

Definition fisherYates {A} (random : nat -> nat) (arr : list A) : list A :=
  shuffleFrom random (length arr - 1) arr.

(** ** The data model (src/video/interfaces/video-metadata.interface.ts) *)

(** The [tags] field at run time: the declared array, or the comma-joined
    string that a multipart form delivers. *)
Inductive tagsValue : Type :=
| TagsString (s : jsstring)
| TagsArray (l : list jsstring).

Module UploadVideoDto.
Record t : Type := mk {
  title : jsstring;
  description : option jsstring;
  tags : option tagsValue;
  category : option jsstring;
}.
End UploadVideoDto.

Module VideoMetadata.
Record t : Type := mk {
  title : jsstring;
  description : option jsstring;
  tags : option tagsValue;
  category : option jsstring;
  uploadDate : jsstring;
  fileSize : Z;
  duration : option jsstring;
  resolution : option jsstring;
  format : jsstring;
  videoUrl : jsstring;
  publicUrl : jsstring;
  thumbnailUrl : option jsstring;
}.
End VideoMetadata.

(** [Express.Multer.File], the fields the service reads. *)
Module MulterFile.
Record t : Type := mk {
  originalname : jsstring;
  mimetype : jsstring;
  size : Z;
  buffer : list Byte.byte;
}.
End MulterFile.

(** What the service observes of [now = new Date()]. *)
Module JsDate.
Record t : Type := mk {
  getFullYear : Z;
  getMonth : Z;
  toISOString : jsstring;
}.
End JsDate.

(** An object of the bucket: its key, content type, custom metadata and
    bytes. *)
Module GcsObject.
Record t : Type := mk {
  name : jsstring;
  contentType : jsstring;
  metadata : list (jsstring * jsstring);
  content : list Byte.byte;
}.
End GcsObject.

(** The exceptions the modelled code can raise: [JSON.parse] on malformed
    text, and a property read on a reference that holds no object. *)
Inductive exn : Type :=
| SyntaxError (message : jsstring)
| TypeError (message : jsstring).

(** The engine and library functions the service calls but does not define. *)
Class Runtime := {
  (** [String.prototype.toLowerCase] on a string that has a code unit
      outside ASCII and the Hangul syllables (the Unicode case tables). *)
  unicodeLower : jsstring -> jsstring;
  (** [JSON.parse(content.toString())]: the record, or the message of the
      SyntaxError. The declared type [VideoMetadata] of the result is taken
      at its word. *)
  JSON_parse : list Byte.byte -> jsstring + VideoMetadata.t;
  (** The bytes stored for [JSON.stringify(videoMetadata, null, 2)]. *)
  JSON_stringify : VideoMetadata.t -> list Byte.byte;
  (** [new Date(s).getTime()], NaN for a string that is not a date. *)
  Date_getTime : jsstring -> jsnum;
  (** [process.env.GCS_BUCKET_NAME || 'your-bucket-name'] *)
  bucketName : jsstring;
}.

(** ** The world: DTO objects by reference, the bucket, and the log of
       mutations in the order they happen *)

Definition ref := nat.

Inductive event : Type :=
| AssignTags (r : ref) (v : tagsValue)
| PutObject (key : jsstring).

Record world : Type := mkWorld {
  heap : gmap ref UploadVideoDto.t;
  bucket : list GcsObject.t;
  events : list event;
}.

(** A computation either throws or returns, and leaves a world behind. *)
Definition M (A : Type) : Type := world -> (exn + A) * world.

#[global] Instance M_ret : MRet M := fun A (a : A) w => (inr a, w).

#[global] Instance M_bind : MBind M := fun A B (k : A -> M B) (m : M A) w =>
  match m w with
  | (inl e, w') => (inl e, w')
  | (inr a, w') => k a w'
  end.

Definition throw {A} (e : exn) : M A := fun w => (inl e, w).

(** [try { body } catch (error) { handler }] *)
Definition tryCatch {A} (body : M A) (handler : exn -> M A) : M A := fun w =>
  match body w with
  | (inl e, w') => handler e w'
  | (inr a, w') => (inr a, w')
  end.

(** Reading the object behind a reference. *)
Definition deref (r : ref) : M UploadVideoDto.t := fun w =>
  match heap w !! r with
  | Some d => (inr d, w)
  | None => (inl (TypeError (lit "Cannot read properties of undefined")), w)
  end.

(** [metadata.tags = v] *)
Definition assignTags (r : ref) (v : tagsValue) : M unit := fun w =>
  match heap w !! r with
  | Some d =>
      let d' := UploadVideoDto.mk (UploadVideoDto.title d)
                  (UploadVideoDto.description d) (Some v)
                  (UploadVideoDto.category d) in
      (inr tt, mkWorld (<[r:=d']> (heap w)) (bucket w)
                       (events w ++ [AssignTags r v]))
  | None => (inl (TypeError (lit "Cannot set properties of undefined")), w)
  end.

(** Writing an object: a key already present is overwritten where it stands
    in the listing, a new key is listed after the others. *)
Fixpoint upsert (o : GcsObject.t) (objs : list GcsObject.t) : list GcsObject.t :=
  match objs with
  | [] => [o]
  | o' :: rest =>
      if bool_decide (GcsObject.name o' = GcsObject.name o) then o :: rest
      else o' :: upsert o rest
  end.

(** Storing an object, as [blobStream.end(file.buffer)] and
    [bucket.file(key).save(...)] both do. *)
Definition putObject (o : GcsObject.t) : M unit := fun w =>
  (inr tt, mkWorld (heap w) (upsert o (bucket w))
                   (events w ++ [PutObject (GcsObject.name o)])).

(** [bucket.getFiles({ prefix })]: the objects whose key begins with the
    prefix, read literally, in listing order. *)
Definition getFiles (prefix : jsstring) : M (list GcsObject.t) := fun w =>
  (inr (List.filter (fun o => startsWith prefix (GcsObject.name o)) (bucket w)), w).

(** [file.download()] *)
Definition download (file : GcsObject.t) : M (list Byte.byte) :=
  mret (GcsObject.content file).

(** A [for ... of] loop that pushes one result per element. *)
Fixpoint forEachPush {A B} (f : A -> M B) (l : list A) : M (list B) :=
  match l with
  | [] => mret []
  | a :: l' => b ← f a; bs ← forEachPush f l'; mret (b :: bs)
  end.

(** [x || ''] *)
Definition orEmptyString (x : option jsstring) : jsstring :=
  match x with
  | Some (c :: s) => c :: s
  | _ => []
  end.

(** [metadata.tags || []] *)
Definition orEmptyArray (x : option tagsValue) : tagsValue :=
  match x with
  | Some (TagsArray l) => TagsArray l
  | Some (TagsString (c :: s)) => TagsString (c :: s)
  | _ => TagsArray []
  end.

(** ** VideoService *)

Section VideoService.
Context `{Runtime}.

(** [s.toLowerCase()]: on ASCII letters the mapping is A-Z to a-z, Hangul
    syllables have no case; anything else is left to the Unicode tables. *)
Definition toLowerCase (s : jsstring) : jsstring :=
  if forallb (fun c => isAscii c || isHangul c) s
  then List.map lowerUnit s
  else unicodeLower s.

(** [VideoService.sanitizeFileName] *)
Definition sanitizeFileName (title : jsstring) : jsstring :=
  toLowerCase (hyphenate (stripSpecial title)).

(** [VideoService.getFileExtension]:
    [filename.split('.').pop()?.toLowerCase() || 'mp4'] *)
Definition getFileExtension (filename : jsstring) : jsstring :=
  match toLowerCase (List.last (split 46 filename) []) with
  | [] => lit "mp4"
  | ext => ext
  end.

(** The first statement of [uploadVideo]: a non-empty string of tags is
    replaced, in the caller's object, by its trimmed comma-separated parts. *)
Definition normalizeTags (metadata : ref) : M unit :=
  d ← deref metadata;
  match UploadVideoDto.tags d with
  | Some (TagsString (c :: s)) =>
      assignTags metadata (TagsArray (List.map trim (split 44 (c :: s))))
  | _ => mret tt
  end.

(** [VideoService.uploadVideo]; [now] is the value of [new Date()]. *)
Definition uploadVideo (file : MulterFile.t) (metadata : ref) (now : JsDate.t)
  : M VideoMetadata.t :=
  tryCatch
    (normalizeTags metadata;;
     let year := JsDate.getFullYear now in
     let month := padStart 2 48 (numberToString (JsDate.getMonth now + 1)) in
     d ← deref metadata;
     let safeTitle := sanitizeFileName (UploadVideoDto.title d) in
     let fileName :=
       safeTitle ++ lit "." ++ getFileExtension (MulterFile.originalname file) in
     let gcsPath :=
       lit "videos/" ++ numberToString year ++ lit "/" ++ month ++ lit "/"
       ++ fileName in
     putObject
       (GcsObject.mk gcsPath (MulterFile.mimetype file)
          [(lit "title", UploadVideoDto.title d);
           (lit "uploadDate", JsDate.toISOString now)]
          (MulterFile.buffer file));;
     let publicUrl :=
       lit "https://storage.googleapis.com/" ++ bucketName ++ lit "/" ++ gcsPath in
     let videoMetadata :=
       VideoMetadata.mk
         (UploadVideoDto.title d)
         (Some (orEmptyString (UploadVideoDto.description d)))
         (Some (orEmptyArray (UploadVideoDto.tags d)))
         (Some (orEmptyString (UploadVideoDto.category d)))
         (JsDate.toISOString now)
         (MulterFile.size file)
         None
         None
         (getFileExtension (MulterFile.originalname file))
         (lit "gs://" ++ bucketName ++ lit "/" ++ gcsPath)
         publicUrl
         None in
     let metadataPath :=
       lit "videos/" ++ numberToString year ++ lit "/" ++ month
       ++ lit "/metadata/" ++ safeTitle ++ lit ".json" in
     putObject
       (GcsObject.mk metadataPath (lit "application/json") []
          (JSON_stringify videoMetadata));;
     mret videoMetadata)
    (fun error => throw error).

(** The test that keeps the metadata objects of a listing. *)
Definition isMetadataFile (file : GcsObject.t) : bool :=
  includes (lit "/metadata/") (GcsObject.name file)
  && endsWith (lit ".json") (GcsObject.name file).

(** [JSON.parse(content.toString())], as a statement that may throw. *)
Definition parseMetadata (content : list Byte.byte) : M VideoMetadata.t :=
  match JSON_parse content with
  | inl message => throw (SyntaxError message)
  | inr metadata => mret metadata
  end.

(** [new Date(v.uploadDate).getTime()] *)
Definition uploadTime (v : VideoMetadata.t) : jsnum :=
  Date_getTime (VideoMetadata.uploadDate v).

(** The comparator of the listing: newest first. *)
Definition byUploadDateDesc (a b : VideoMetadata.t) : jsnum :=
  jsminus (uploadTime b) (uploadTime a).

(** [VideoService.getAllVideos] *)
Definition getAllVideos : M (list VideoMetadata.t) :=
  tryCatch
    (files ← getFiles (lit "videos/");
     let metadataFiles := List.filter isMetadataFile files in
     videos ← forEachPush
                (fun file => content ← download file; parseMetadata content)
                metadataFiles;
     mret (arraySort byUploadDateDesc videos))
    (fun error => throw error).

(** [VideoService.getVideoById] *)
Definition getVideoById (title : jsstring) : M (option VideoMetadata.t) :=
  tryCatch
    (let safeTitle := sanitizeFileName title in
     files ← getFiles (lit "videos/*/metadata/" ++ safeTitle ++ lit ".json");
     match files with
     | [] => mret None
     | file :: _ =>
         content ← download file;
         metadata ← parseMetadata content;
         mret (Some metadata)
     end)
    (fun error => throw error).

(** [VideoService.getRandomVideos]; an absent argument takes the default 5. *)
Definition getRandomVideos (random : nat -> nat) (count : option jsnum)
  : M (list VideoMetadata.t) :=
  let count := match count with Some c => c | None => Int 5 end in
  tryCatch
    (allVideos ← getAllVideos;
     match allVideos with
     | [] => mret []
     | _ :: _ =>
         let maxCount := Math_min count (Int (Z.of_nat (length allVideos))) in
         let shuffled := fisherYates random allVideos in
         mret (slice0 shuffled maxCount)
     end)
    (fun error => throw error).

(** ** VideoController *)

(** [GET /video/random]: [count ? parseInt(count, 10) : 5]; the empty string
    is falsy like an absent parameter. *)
Definition controller_getRandomVideos (random : nat -> nat)
  (count : option jsstring) : M (list VideoMetadata.t) :=
  let countNum :=
    match count with
    | Some (c :: s) => parseInt10 (c :: s)
    | _ => Int 5
    end in
  getRandomVideos random (Some countNum).

(** [POST /video/upload] *)
Definition controller_uploadVideo (file : MulterFile.t) (metadata : ref)
  (now : JsDate.t) : M VideoMetadata.t :=
  uploadVideo file metadata now.

End VideoService.

(** ** Predicates used in the statements *)

(** The code units a sanitized title is made of: [a-z0-9가-힣-]. *)
Definition isSafe (c : N) : bool :=
  isLower c || isDigit c || isHangul c || isHyphen c.

(** What is left after the two replacements: letters of both cases, digits,
    Hangul and hyphens. *)
Definition isWord (c : N) : bool :=
  isLower c || isUpper c || isDigit c || isHangul c || isHyphen c.

(** The first object stored under a key. *)
Definition lookupObject (key : jsstring) (objs : list GcsObject.t)
  : option GcsObject.t :=
  List.find (fun o => bool_decide (GcsObject.name o = key)) objs.

(** The value [uploadVideo] leaves in [metadata.tags]. *)
Definition tagsAfterUpload (tags : option tagsValue) : option tagsValue :=
  match tags with
  | Some (TagsString (c :: s)) =>
      Some (TagsArray (List.map trim (split 44 (c :: s))))
  | _ => tags
  end.

(** The mutation [uploadVideo] logs for a DTO. *)
Definition tagsEvents (r : ref) (tags : option tagsValue) : list event :=
  match tags with
  | Some (TagsString (c :: s)) =>
      [AssignTags r (TagsArray (List.map trim (split 44 (c :: s))))]
  | _ => []
  end.

Definition withTags (d : UploadVideoDto.t) (tags : option tagsValue)
  : UploadVideoDto.t :=
  UploadVideoDto.mk (UploadVideoDto.title d) (UploadVideoDto.description d)
    tags (UploadVideoDto.category d).

(** [${year}/${month}] as [uploadVideo] spells it. *)
Definition yearMonth (now : JsDate.t) : jsstring :=
  numberToString (JsDate.getFullYear now) ++ lit "/"
  ++ padStart 2 48 (numberToString (JsDate.getMonth now + 1)).

Section UploadResult.
Context `{Runtime}.

(** The key of the video object, [gcsPath]. *)
Definition gcsPathOf (file : MulterFile.t) (d : UploadVideoDto.t)
  (now : JsDate.t) : jsstring :=
  lit "videos/" ++ yearMonth now ++ lit "/"
  ++ sanitizeFileName (UploadVideoDto.title d) ++ lit "."
  ++ getFileExtension (MulterFile.originalname file).

(** The key of the metadata object, [metadataPath]. *)
Definition metadataPathOf (d : UploadVideoDto.t) (now : JsDate.t) : jsstring :=
  lit "videos/" ++ yearMonth now ++ lit "/metadata/"
  ++ sanitizeFileName (UploadVideoDto.title d) ++ lit ".json".

(** The record [videoMetadata] built from a DTO whose tags are normalized. *)
Definition videoMetadataOf (file : MulterFile.t) (d : UploadVideoDto.t)
  (now : JsDate.t) : VideoMetadata.t :=
  VideoMetadata.mk
    (UploadVideoDto.title d)
    (Some (orEmptyString (UploadVideoDto.description d)))
    (Some (orEmptyArray (tagsAfterUpload (UploadVideoDto.tags d))))
    (Some (orEmptyString (UploadVideoDto.category d)))
    (JsDate.toISOString now)
    (MulterFile.size file)
    None
    None
    (getFileExtension (MulterFile.originalname file))
    (lit "gs://" ++ bucketName ++ lit "/" ++ gcsPathOf file d now)
    (lit "https://storage.googleapis.com/" ++ bucketName ++ lit "/"
     ++ gcsPathOf file d now)
    None.

Definition videoObjectOf (file : MulterFile.t) (d : UploadVideoDto.t)
  (now : JsDate.t) : GcsObject.t :=
  GcsObject.mk (gcsPathOf file d now) (MulterFile.mimetype file)
    [(lit "title", UploadVideoDto.title d);
     (lit "uploadDate", JsDate.toISOString now)]
    (MulterFile.buffer file).

Definition metadataObjectOf (file : MulterFile.t) (d : UploadVideoDto.t)
  (now : JsDate.t) : GcsObject.t :=
  GcsObject.mk (metadataPathOf d now) (lit "application/json") []
    (JSON_stringify (videoMetadataOf file d now)).

(** The world an upload leaves behind. *)
Definition worldAfterUpload (file : MulterFile.t) (metadata : ref)
  (d : UploadVideoDto.t) (now : JsDate.t) (w : world) : world :=
  mkWorld
    (match UploadVideoDto.tags d with
     | Some (TagsString (_ :: _)) =>
         <[metadata := withTags d (tagsAfterUpload (UploadVideoDto.tags d))]> (heap w)
     | _ => heap w
     end)
    (upsert (metadataObjectOf file d now)
       (upsert (videoObjectOf file d now) (bucket w)))
    (events w ++ tagsEvents metadata (UploadVideoDto.tags d)
     ++ [PutObject (gcsPathOf file d now); PutObject (metadataPathOf d now)]).

(** The metadata objects of a bucket, in listing order. *)
Definition metadataFiles (w : world) : list GcsObject.t :=
  List.filter isMetadataFile
    (List.filter (fun o => startsWith (lit "videos/") (GcsObject.name o)) (bucket w)).

End UploadResult.

Arguments lit : simpl never.
Arguments numberToString : simpl never.
Arguments padStart : simpl never.
Arguments sanitizeFileName : simpl never.
Arguments getFileExtension : simpl never.

(** ** A runtime for running the service on examples

    It stands in for the engine where an example needs a concrete value: the
    Unicode case tables are never reached by the ASCII titles of the
    examples, JSON documents are the ones of a small catalog (anything else,
    the empty document included, is malformed), and the dates are the ISO
    strings of that catalog with their epoch milliseconds. *)

Definition toByte (c : N) : Byte.byte :=
  match Byte.of_N (c mod 256) with
  | Some b => b
  | None => Byte.x00
  end.

Fixpoint bytesEqb (a b : list Byte.byte) : bool :=
  match a, b with
  | [], [] => true
  | x :: a', y :: b' => Byte.eqb x y && bytesEqb a' b'
  | _, _ => false
  end.

Definition demoVideo (folder title uploadDate : string) : VideoMetadata.t :=
  VideoMetadata.mk (lit title) (Some []) (Some (TagsArray [])) (Some [])
    (lit uploadDate) 675106 None None (lit "mp4")
    (lit "gs://short-form-project/videos/" ++ lit folder ++ lit "/"
     ++ lit title ++ lit ".mp4")
    (lit "https://storage.googleapis.com/short-form-project/videos/"
     ++ lit folder ++ lit "/" ++ lit title ++ lit ".mp4")
    None.

Definition catVideo : VideoMetadata.t :=
  demoVideo "2025/07" "cat" "2025-07-24T14:48:03.064Z".
Definition dogVideo : VideoMetadata.t :=
  demoVideo "2025/07" "dog" "2025-07-25T09:00:00.000Z".
Definition owlVideo : VideoMetadata.t :=
  demoVideo "2025/07" "owl" "2025-07-24T14:48:03.064Z".
Definition foxVideo : VideoMetadata.t :=
  demoVideo "2025/06" "fox" "2025-06-01T00:00:00.000Z".

Definition demoCatalog : list VideoMetadata.t :=
  [catVideo; dogVideo; owlVideo; foxVideo].

Definition demoStringify (v : VideoMetadata.t) : list Byte.byte :=
  List.map toByte (VideoMetadata.title v ++ lit "@" ++ VideoMetadata.uploadDate v).

Definition demoParse (content : list Byte.byte) : jsstring + VideoMetadata.t :=
  match List.find (fun v => bytesEqb (demoStringify v) content) demoCatalog with
  | Some v => inr v
  | None => inl (lit "Unexpected end of JSON input")
  end.

Definition demoGetTime (s : jsstring) : jsnum :=
  if bool_decide (s = lit "2025-07-24T14:48:03.064Z") then Int 1753368483064
  else if bool_decide (s = lit "2025-07-25T09:00:00.000Z") then Int 1753434000000
  else if bool_decide (s = lit "2025-06-01T00:00:00.000Z") then Int 1748736000000
  else NaN.

Definition demoRuntime : Runtime := {|
  unicodeLower := fun s => s;
  JSON_parse := demoParse;
  JSON_stringify := demoStringify;
  Date_getTime := demoGetTime;
  bucketName := lit "short-form-project";
|}.

Definition demoObject (key : string) (content : list Byte.byte) : GcsObject.t :=
  GcsObject.mk (lit key) (lit "application/json") [] content.

Definition demoBinary (key : string) : GcsObject.t :=
  GcsObject.mk (lit key) (lit "video/mp4") [] [].

(** A bucket after four uploads, one of June and three of July 2025, listed
    by key. The cat and the owl were uploaded at the same instant. *)
Definition demoBucket : list GcsObject.t :=
  [ demoBinary "videos/2025/06/fox.mp4";
    demoObject "videos/2025/06/metadata/fox.json" (demoStringify foxVideo);
    demoBinary "videos/2025/07/cat.mp4";
    demoBinary "videos/2025/07/dog.mp4";
    demoObject "videos/2025/07/metadata/cat.json" (demoStringify catVideo);
    demoObject "videos/2025/07/metadata/dog.json" (demoStringify dogVideo);
    demoObject "videos/2025/07/metadata/owl.json" (demoStringify owlVideo);
    demoBinary "videos/2025/07/owl.mp4" ].

Definition demoWorld : world := mkWorld ∅ demoBucket [].

Definition demoFile : MulterFile.t :=
  MulterFile.mk (lit "clip.mp4") (lit "video/mp4") 675106 [].

Definition july2025 : JsDate.t :=
  JsDate.mk 2025 6 (lit "2025-07-24T14:48:03.064Z").

Definition demoDto (title : string) (tags : option tagsValue) : UploadVideoDto.t :=
  UploadVideoDto.mk (lit title) None tags None.

(** A world whose only DTO, at reference 0, is the one given. *)
Definition worldWith (d : UploadVideoDto.t) : world :=
  mkWorld {[ 0%nat := d ]} [] [].

Section ListingOrder.
Context `{Runtime}.

(** The upload time of a record whose [uploadDate] is a date, in
    milliseconds. *)
Definition timeOf (v : VideoMetadata.t) : Z :=
  match uploadTime v with
  | Int t => t
  | NaN => 0%Z
  end.

(** The record's [uploadDate] denotes an instant, as the ISO-8601 string
    written by [uploadVideo] does. *)
Definition hasUploadTime (v : VideoMetadata.t) : Prop := uploadTime v <> NaN.

(** [a] may stand directly before [b] in a listing that is newest first. *)
Definition notOlder (a b : VideoMetadata.t) : Prop := (timeOf b <= timeOf a)%Z.

End ListingOrder.

(** A bucket whose only object is a metadata file that is empty, which no
    JSON parser accepts. *)
Definition corruptWorld (key : string) : world :=
  mkWorld ∅ [demoObject key []] [].

(** ** Further predicates *)

(** A string that neither begins nor ends with white space. *)
Definition isTrimmed (s : jsstring) : Prop :=
  match s with c :: _ => isSpace c = false | [] => True end
  /\ match rev s with c :: _ => isSpace c = false | [] => True end.

(** The number of commas of a string. *)
Definition commas (s : jsstring) : nat :=
  length (List.filter (fun c => c =? 44) s).

(** [GET /video] *)
Definition controller_getAllVideos `{Runtime} : M (list VideoMetadata.t) :=
  getAllVideos.

(** Three metadata objects with pairwise different upload times, in two
    listing orders. *)
Definition foxObject : GcsObject.t :=
  demoObject "videos/2025/06/metadata/fox.json" (demoStringify foxVideo).
Definition catObject : GcsObject.t :=
  demoObject "videos/2025/07/metadata/cat.json" (demoStringify catVideo).
Definition dogObject : GcsObject.t :=
  demoObject "videos/2025/07/metadata/dog.json" (demoStringify dogVideo).

(** The step of [digitsValue]. *)
Definition digitStep (acc : Z) (c : N) : Z := (10 * acc + Z.of_N (c - 48))%Z.

(** * Properties *)

(** ** Code-unit classes *)

Ltac class_bool :=
  unfold isAllowed, isSpace, isLower, isUpper, isDigit, isHangul, isHyphen,
    isAscii, between in *;
  repeat match goal with
  | H : _ = true |- _ =>
      rewrite ?orb_true_iff, ?andb_true_iff, ?N.leb_le, ?N.eqb_eq, ?N.ltb_lt in H
  | H : _ = false |- _ =>
      rewrite ?orb_false_iff, ?andb_false_iff, ?N.leb_gt, ?N.eqb_neq, ?N.ltb_ge in H
  end;
  rewrite ?orb_true_iff, ?andb_true_iff, ?orb_false_iff, ?andb_false_iff,
    ?N.leb_le, ?N.eqb_eq, ?N.ltb_lt, ?N.leb_gt, ?N.eqb_neq, ?N.ltb_ge.

Lemma isSafe_allowed c : isSafe c = true -> isAllowed c = true.
Proof. unfold isSafe. intros Hc. class_bool. lia. Qed.

Lemma isSafe_not_space c : isSafe c = true -> isSpace c = false.
Proof. unfold isSafe. intros Hc. class_bool. lia. Qed.

Lemma isSafe_not_upper c : isSafe c = true -> isUpper c = false.
Proof. unfold isSafe. intros Hc. class_bool. lia. Qed.

Lemma isSafe_plain c : isSafe c = true -> isAscii c || isHangul c = true.
Proof. unfold isSafe. intros Hc. class_bool. lia. Qed.

Lemma isWord_plain c : isWord c = true -> isAscii c || isHangul c = true.
Proof. unfold isWord. intros Hc. class_bool. lia. Qed.

Lemma allowed_not_space_word c :
  isAllowed c = true -> isSpace c = false -> isWord c = true.
Proof.
  unfold isWord. intros Ha Hs.
  unfold isAllowed in Ha. rewrite Hs, orb_false_r in Ha.
  rewrite <- Ha. reflexivity.
Qed.

Lemma lowerUnit_safe c : isWord c = true -> isSafe (lowerUnit c) = true.
Proof.
  unfold isWord, isSafe, lowerUnit. intros Hc.
  destruct (isUpper c) eqn:Hu; class_bool; lia.
Qed.

Lemma lowerUnit_fixed c : isSafe c = true -> lowerUnit c = c.
Proof. intros Hc. unfold lowerUnit. now rewrite (isSafe_not_upper c Hc). Qed.

(** ** Sanitization *)

Section Sanitize.
Context `{Runtime}.

Lemma stripSpecial_allowed s : Forall (fun c => isAllowed c = true) (stripSpecial s).
Proof.
  unfold stripSpecial. induction s as [|c s IH]; simpl; [constructor|].
  destruct (isAllowed c) eqn:Hc; [constructor|]; assumption.
Qed.

Lemma hyphenateFrom_word inRun s :
  Forall (fun c => isAllowed c = true) s ->
  Forall (fun c => isWord c = true) (hyphenateFrom inRun s).
Proof.
  intros Hs. revert inRun.
  induction Hs as [|c s Hc _ IH]; intros inRun; simpl; [constructor|].
  destruct (isSpace c) eqn:Hsp.
  - destruct inRun; [apply IH|]. constructor; [reflexivity | apply IH].
  - constructor; [now apply allowed_not_space_word | apply IH].
Qed.

Lemma toLowerCase_plain s :
  Forall (fun c => isAscii c || isHangul c = true) s ->
  toLowerCase s = List.map lowerUnit s.
Proof.
  intros Hs. unfold toLowerCase.
  replace (forallb _ s) with true; [reflexivity|].
  symmetry. apply forallb_forall. intros c Hc.
  rewrite Forall_forall in Hs. now apply Hs, list_elem_of_In.
Qed.

Lemma toLowerCase_word s :
  Forall (fun c => isWord c = true) s ->
  Forall (fun c => isSafe c = true) (toLowerCase s).
Proof.
  intros Hs. rewrite toLowerCase_plain.
  - induction Hs; simpl; constructor; auto using lowerUnit_safe.
  - eapply Forall_impl; [eassumption|]. apply isWord_plain.
Qed.

(** A sanitized title consists of [a-z0-9가-힣-] only. *)
Lemma sanitizeFileName_safe title :
  Forall (fun c => isSafe c = true) (sanitizeFileName title).
Proof.
  unfold sanitizeFileName, hyphenate.
  apply toLowerCase_word, hyphenateFrom_word, stripSpecial_allowed.
Qed.

Lemma stripSpecial_safe s :
  Forall (fun c => isSafe c = true) s -> stripSpecial s = s.
Proof.
  unfold stripSpecial. induction 1 as [|c s Hc _ IH]; simpl; [reflexivity|].
  now rewrite (isSafe_allowed c Hc), IH.
Qed.

Lemma hyphenateFrom_safe inRun s :
  Forall (fun c => isSafe c = true) s -> hyphenateFrom inRun s = s.
Proof.
  intros Hs. revert inRun.
  induction Hs as [|c s Hc _ IH]; intros inRun; simpl; [reflexivity|].
  now rewrite (isSafe_not_space c Hc), IH.
Qed.

Lemma toLowerCase_safe s :
  Forall (fun c => isSafe c = true) s -> toLowerCase s = s.
Proof.
  intros Hs. rewrite toLowerCase_plain.
  - induction Hs as [|c s Hc _ IH]; simpl; [reflexivity|].
    now rewrite (lowerUnit_fixed c Hc), IH.
  - eapply Forall_impl; [eassumption|]. apply isSafe_plain.
Qed.

(** A string over [a-z0-9가-힣-] is its own sanitization. *)
Lemma sanitizeFileName_fixed s :
  Forall (fun c => isSafe c = true) s -> sanitizeFileName s = s.
Proof.
  intros Hs. unfold sanitizeFileName, hyphenate.
  now rewrite (stripSpecial_safe s Hs), (hyphenateFrom_safe false s Hs),
    (toLowerCase_safe s Hs).
Qed.

(** C8: [sanitizeFileName] is idempotent: sanitizing a sanitized title
    changes nothing, for every input string and whatever the Unicode case
    tables are. *)
Theorem sanitizeFileName_idempotent (x : jsstring) :
  sanitizeFileName (sanitizeFileName x) = sanitizeFileName x.
Proof. apply sanitizeFileName_fixed, sanitizeFileName_safe. Qed.

End Sanitize.

(** ** The monad *)

Lemma tryCatch_rethrow {A} (m : M A) (w : world) :
  tryCatch m (fun error => throw error) w = m w.
Proof. unfold tryCatch, throw. destruct (m w) as [[e|a] w']; reflexivity. Qed.

Lemma bind_run {A B} (m : M A) (k : A -> M B) (w : world) :
  (m ≫= k) w = match m w with
                | (inl e, w') => (inl e, w')
                | (inr a, w') => k a w'
                end.
Proof. reflexivity. Qed.

(** ** Upload *)

Section Upload.
Context `{Runtime}.

Lemma normalizeTags_run (r : ref) (d : UploadVideoDto.t) (w : world) :
  heap w !! r = Some d ->
  normalizeTags r w =
    (inr tt,
     mkWorld
       (match UploadVideoDto.tags d with
        | Some (TagsString (_ :: _)) =>
            <[r := withTags d (tagsAfterUpload (UploadVideoDto.tags d))]> (heap w)
        | _ => heap w
        end)
       (bucket w)
       (events w ++ tagsEvents r (UploadVideoDto.tags d))).
Proof.
  intros Hd. unfold normalizeTags. rewrite bind_run. unfold deref. rewrite Hd.
  destruct w as [hp bk ev]; simpl in *.
  destruct (UploadVideoDto.tags d) as [[[|c s]|l]|] eqn:Ht; simpl;
    unfold mret, M_ret; simpl; rewrite ?app_nil_r; try reflexivity.
  unfold assignTags; simpl. rewrite Hd. reflexivity.
Qed.

(** After the first statement the reference holds the DTO with its tags
    normalized. *)
Lemma normalizeTags_heap (r : ref) (d : UploadVideoDto.t) (w : world) :
  heap w !! r = Some d ->
  heap (snd (normalizeTags r w)) !! r
  = Some (withTags d (tagsAfterUpload (UploadVideoDto.tags d))).
Proof.
  intros Hd. rewrite (normalizeTags_run r d w Hd). simpl.
  destruct d as [ti de tg ca]; simpl in *.
  destruct tg as [[[|c s]|l]|]; simpl; try exact Hd.
  apply lookup_insert_eq.
Qed.

(** An upload whose DTO reference is live never throws: it returns the
    record and leaves the two objects in the bucket. *)
Lemma uploadVideo_run (file : MulterFile.t) (r : ref) (now : JsDate.t)
  (d : UploadVideoDto.t) (w : world) :
  heap w !! r = Some d ->
  uploadVideo file r now w
  = (inr (videoMetadataOf file d now), worldAfterUpload file r d now w).
Proof.
  intros Hd. unfold uploadVideo. rewrite tryCatch_rethrow.
  rewrite bind_run.
  pose proof (normalizeTags_heap r d w Hd) as Hheap.
  rewrite (normalizeTags_run r d w Hd) in *. cbn [snd heap] in Hheap.
  rewrite bind_run. unfold deref at 1. cbn [heap]. rewrite Hheap.
  unfold worldAfterUpload, videoMetadataOf, metadataObjectOf, videoObjectOf,
    gcsPathOf, metadataPathOf, yearMonth, putObject, mret, M_ret.
  rewrite !bind_run. cbn [heap bucket events].
  rewrite <- !app_assoc.
  destruct d as [ti de tg ca]; cbn [UploadVideoDto.title UploadVideoDto.tags
    UploadVideoDto.description UploadVideoDto.category withTags].
  replace (orEmptyArray (tagsAfterUpload (tagsAfterUpload tg)))
    with (orEmptyArray (tagsAfterUpload tg)) by (destruct tg as [[[|c s]|l]|]; reflexivity).
  unfold videoMetadataOf, gcsPathOf, yearMonth.
  cbn [GcsObject.name UploadVideoDto.title UploadVideoDto.tags
    UploadVideoDto.description UploadVideoDto.category].
  rewrite <- !app_assoc. reflexivity.
Qed.

Lemma lookupObject_upsert_eq (o : GcsObject.t) (objs : list GcsObject.t) :
  lookupObject (GcsObject.name o) (upsert o objs) = Some o.
Proof.
  unfold lookupObject. induction objs as [|o' objs IH]; cbn [upsert List.find].
  - now rewrite bool_decide_eq_true_2.
  - destruct (bool_decide (GcsObject.name o' = GcsObject.name o)) eqn:Hn;
      cbn [List.find].
    + now rewrite bool_decide_eq_true_2.
    + now rewrite Hn.
Qed.

Lemma lookupObject_upsert_ne (key : jsstring) (o : GcsObject.t)
  (objs : list GcsObject.t) :
  key <> GcsObject.name o ->
  lookupObject key (upsert o objs) = lookupObject key objs.
Proof.
  intros Hne. unfold lookupObject.
  induction objs as [|o' objs IH]; cbn [upsert List.find].
  - rewrite bool_decide_eq_false_2; [reflexivity | congruence].
  - destruct (bool_decide (GcsObject.name o' = GcsObject.name o)) eqn:Hn;
      cbn [List.find].
    + apply bool_decide_eq_true_1 in Hn.
      rewrite !bool_decide_eq_false_2; [reflexivity | congruence | congruence].
    + now rewrite IH.
Qed.

(** The metadata object is the last write of an upload. *)
Lemma upload_metadata_object (file : MulterFile.t) (r : ref)
  (d : UploadVideoDto.t) (now : JsDate.t) (w : world) :
  lookupObject (metadataPathOf d now) (bucket (worldAfterUpload file r d now w))
  = Some (metadataObjectOf file d now).
Proof. apply (lookupObject_upsert_eq (metadataObjectOf file d now)). Qed.

(** The video object is found under its key when the two keys differ. *)
Lemma upload_video_object (file : MulterFile.t) (r : ref)
  (d : UploadVideoDto.t) (now : JsDate.t) (w : world) :
  gcsPathOf file d now <> metadataPathOf d now ->
  lookupObject (gcsPathOf file d now) (bucket (worldAfterUpload file r d now w))
  = Some (videoObjectOf file d now).
Proof.
  intros Hne. cbn [worldAfterUpload bucket].
  rewrite lookupObject_upsert_ne by exact Hne.
  apply (lookupObject_upsert_eq (videoObjectOf file d now)).
Qed.

(** *** File extensions *)

Lemma split_nonempty (sep : N) (s : jsstring) : split sep s <> [].
Proof.
  destruct s as [|c s]; cbn [split]; [easy|].
  destruct (c =? sep); [easy|]. destruct (split sep s); easy.
Qed.

Lemma last_app_nonempty {A} (l1 l2 : list A) (d : A) :
  l2 <> [] -> List.last (l1 ++ l2) d = List.last l2 d.
Proof.
  intros Hne. induction l1 as [|a l1 IH]; [reflexivity|].
  cbn [app]. rewrite <- IH. cbn [List.last].
  destruct (l1 ++ l2) eqn:Happ; [|reflexivity].
  apply app_eq_nil in Happ. destruct Happ; contradiction.
Qed.

Lemma split_app_sep (sep : N) (s t : jsstring) :
  split sep (s ++ sep :: t) = split sep s ++ split sep t.
Proof.
  induction s as [|c s IH]; cbn [split app].
  - now rewrite N.eqb_refl.
  - destruct (c =? sep); rewrite IH; [reflexivity|].
    pose proof (split_nonempty sep s) as Hne.
    destruct (split sep s) as [|seg segs]; [contradiction | reflexivity].
Qed.

Lemma last_split_app_sep (sep : N) (s t : jsstring) :
  List.last (split sep (s ++ sep :: t)) [] = List.last (split sep t) [].
Proof.
  rewrite split_app_sep. apply last_app_nonempty, split_nonempty.
Qed.

(** Whatever precedes the last dot, a name ending in [.mp4] has the
    extension [mp4]. *)
Lemma getFileExtension_mp4 (stem : jsstring) :
  getFileExtension (stem ++ lit ".mp4") = lit "mp4".
Proof.
  unfold getFileExtension.
  change (lit ".mp4") with (46 :: lit "mp4").
  rewrite last_split_app_sep. reflexivity.
Qed.

Lemma sanitize_my_cat_video :
  sanitizeFileName (lit "My Cat! Video") = lit "my-cat-video".
Proof. reflexivity. Qed.

(** C6: an upload titled "My Cat! Video" of a file named [*.mp4], made in
    July 2025 ([getFullYear] 2025, [getMonth] 6), returns a record whose
    format is "mp4" and whose videoUrl starts with "gs://", stores the file
    bytes under videos/2025/07/my-cat-video.mp4 and the serialized record
    under videos/2025/07/metadata/my-cat-video.json, and writes exactly
    these two objects, in this order. *)
Theorem upload_my_cat_video (file : MulterFile.t) (metadata : ref)
  (now : JsDate.t) (d : UploadVideoDto.t) (w : world) (stem : jsstring) :
  heap w !! metadata = Some d ->
  UploadVideoDto.title d = lit "My Cat! Video" ->
  MulterFile.originalname file = stem ++ lit ".mp4" ->
  JsDate.getFullYear now = 2025%Z ->
  JsDate.getMonth now = 6%Z ->
  exists (v : VideoMetadata.t) (w' : world),
    uploadVideo file metadata now w = (inr v, w')
    /\ VideoMetadata.format v = lit "mp4"
    /\ startsWith (lit "gs://") (VideoMetadata.videoUrl v) = true
    /\ (exists o, lookupObject (lit "videos/2025/07/my-cat-video.mp4") (bucket w')
                  = Some o
                  /\ GcsObject.content o = MulterFile.buffer file)
    /\ (exists o, lookupObject (lit "videos/2025/07/metadata/my-cat-video.json")
                    (bucket w') = Some o
                  /\ GcsObject.content o = JSON_stringify v)
    /\ events w'
       = events w ++ tagsEvents metadata (UploadVideoDto.tags d)
         ++ [PutObject (lit "videos/2025/07/my-cat-video.mp4");
             PutObject (lit "videos/2025/07/metadata/my-cat-video.json")].
Proof.
  intros Hd Htitle Hname Hyear Hmonth.
  assert (Hvideo : gcsPathOf file d now = lit "videos/2025/07/my-cat-video.mp4").
  { unfold gcsPathOf, yearMonth.
    rewrite Htitle, Hname, Hyear, Hmonth, getFileExtension_mp4. reflexivity. }
  assert (Hmeta : metadataPathOf d now
                  = lit "videos/2025/07/metadata/my-cat-video.json").
  { unfold metadataPathOf, yearMonth.
    rewrite Htitle, Hyear, Hmonth. reflexivity. }
  exists (videoMetadataOf file d now), (worldAfterUpload file metadata d now w).
  split; [now apply uploadVideo_run|].
  split; [cbn [videoMetadataOf VideoMetadata.format];
          rewrite Hname; apply getFileExtension_mp4|].
  split; [reflexivity|].
  split.
  { exists (videoObjectOf file d now). split; [|reflexivity].
    rewrite <- Hvideo. apply upload_video_object.
    rewrite Hvideo, Hmeta. intros Heq. vm_compute in Heq. discriminate Heq. }
  split.
  { exists (metadataObjectOf file d now). split; [|reflexivity].
    rewrite <- Hmeta. apply upload_metadata_object. }
  cbn [worldAfterUpload events]. now rewrite Hvideo, Hmeta.
Qed.

(** C2, as the code has it: a title whose sanitization is empty does not
    make the upload fail. There is no check on the sanitized title: the
    upload returns its record, writes the video under
    videos/{year}/{month}/.{ext} and the metadata under
    videos/{year}/{month}/metadata/.json, both with an empty file stem. *)
Theorem upload_empty_sanitized_title (file : MulterFile.t) (metadata : ref)
  (now : JsDate.t) (d : UploadVideoDto.t) (w : world) :
  heap w !! metadata = Some d ->
  sanitizeFileName (UploadVideoDto.title d) = [] ->
  exists (v : VideoMetadata.t) (w' : world),
    uploadVideo file metadata now w = (inr v, w')
    /\ events w'
       = events w ++ tagsEvents metadata (UploadVideoDto.tags d)
         ++ [PutObject (lit "videos/" ++ yearMonth now ++ lit "/."
                        ++ getFileExtension (MulterFile.originalname file));
             PutObject (lit "videos/" ++ yearMonth now ++ lit "/metadata/.json")]
    /\ (exists o,
          lookupObject (lit "videos/" ++ yearMonth now ++ lit "/metadata/.json")
            (bucket w') = Some o
          /\ GcsObject.content o = JSON_stringify v).
Proof.
  intros Hd Hempty.
  exists (videoMetadataOf file d now), (worldAfterUpload file metadata d now w).
  split; [now apply uploadVideo_run|].
  assert (Hmeta : metadataPathOf d now
                  = lit "videos/" ++ yearMonth now ++ lit "/metadata/.json").
  { unfold metadataPathOf. now rewrite Hempty. }
  split.
  - cbn [worldAfterUpload events]. rewrite Hmeta.
    unfold gcsPathOf. rewrite Hempty. reflexivity.
  - exists (metadataObjectOf file d now). split; [|reflexivity].
    rewrite <- Hmeta. apply upload_metadata_object.
Qed.

(** C9: uploading with the tags string "a, b ,c" gives the record, and
    leaves in the caller's DTO, the list ["a"; "b"; "c"]; uploading with
    tags that are already a list gives the record that very list and
    leaves every DTO as it was. The DTO is any object at reference
    [metadata] of any heap. *)
Theorem upload_tags_normalized (file : MulterFile.t) (metadata : ref)
  (now : JsDate.t) (title : jsstring) (description category : option jsstring)
  (hp : gmap ref UploadVideoDto.t) (bk : list GcsObject.t) (ev : list event) :
  let given tags :=
    mkWorld (<[metadata := UploadVideoDto.mk title description (Some tags) category]> hp)
      bk ev in
  let abc := TagsArray [lit "a"; lit "b"; lit "c"] in
  (exists (v : VideoMetadata.t) (w' : world),
      uploadVideo file metadata now (given (TagsString (lit "a, b ,c"))) = (inr v, w')
      /\ VideoMetadata.tags v = Some abc
      /\ heap w' !! metadata
         = Some (UploadVideoDto.mk title description (Some abc) category))
  /\ (forall l : list jsstring,
        exists (v : VideoMetadata.t) (w' : world),
          uploadVideo file metadata now (given (TagsArray l)) = (inr v, w')
          /\ VideoMetadata.tags v = Some (TagsArray l)
          /\ heap w' = heap (given (TagsArray l))).
Proof.
  intros given abc. split; [|intros l]; eexists; eexists.
  - split; [apply uploadVideo_run; apply lookup_insert_eq|].
    split; [reflexivity|]. apply lookup_insert_eq.
  - split; [apply uploadVideo_run; apply lookup_insert_eq|].
    split; reflexivity.
Qed.

(** C10, as the code has it: when the DTO's tags are a non-empty string,
    [uploadVideo] replaces them, in the caller's own object, by the list of
    the trimmed comma-separated parts. After the call the heap is the
    caller's heap with that one field of that one object changed (title,
    description and category are as before), and the assignment is logged
    before the two storage writes. *)
Theorem upload_reassigns_tags (file : MulterFile.t) (metadata : ref)
  (now : JsDate.t) (d : UploadVideoDto.t) (w : world) (c : N) (s : jsstring) :
  heap w !! metadata = Some d ->
  UploadVideoDto.tags d = Some (TagsString (c :: s)) ->
  let parts := TagsArray (List.map trim (split 44 (c :: s))) in
  exists (v : VideoMetadata.t) (w' : world),
    uploadVideo file metadata now w = (inr v, w')
    /\ heap w'
       = <[metadata := UploadVideoDto.mk (UploadVideoDto.title d)
                         (UploadVideoDto.description d) (Some parts)
                         (UploadVideoDto.category d)]> (heap w)
    /\ events w'
       = events w
         ++ [AssignTags metadata parts;
             PutObject (gcsPathOf file d now);
             PutObject (metadataPathOf d now)].
Proof.
  intros Hd Htags parts.
  exists (videoMetadataOf file d now), (worldAfterUpload file metadata d now w).
  split; [now apply uploadVideo_run|].
  unfold worldAfterUpload; cbn [heap events]. rewrite Htags. split; reflexivity.
Qed.

(** A string of tags that is empty is falsy: the guard skips it, and the
    caller's object is not touched at all. *)
Lemma upload_keeps_other_tags (file : MulterFile.t) (metadata : ref)
  (now : JsDate.t) (d : UploadVideoDto.t) (w : world) :
  heap w !! metadata = Some d ->
  (forall c s, UploadVideoDto.tags d <> Some (TagsString (c :: s))) ->
  heap (snd (uploadVideo file metadata now w)) = heap w.
Proof.
  intros Hd Hne. rewrite (uploadVideo_run file metadata now d w Hd).
  cbn [snd worldAfterUpload heap].
  destruct (UploadVideoDto.tags d) as [[[|c s]|l]|]; try reflexivity.
  now destruct (Hne c s).
Qed.

End Upload.

(** *** Examples of uploads *)

Lemma upload_my_cat_video_witness :
  exists (v : VideoMetadata.t) (w' : world),
    @uploadVideo demoRuntime demoFile 0%nat july2025
      (worldWith (demoDto "My Cat! Video" None)) = (inr v, w')
    /\ VideoMetadata.format v = lit "mp4"
    /\ events w' = [PutObject (lit "videos/2025/07/my-cat-video.mp4");
                    PutObject (lit "videos/2025/07/metadata/my-cat-video.json")].
Proof.
  destruct (@upload_my_cat_video demoRuntime demoFile 0%nat july2025
              (demoDto "My Cat! Video" None)
              (worldWith (demoDto "My Cat! Video" None)) (lit "clip"))
    as (v & w' & Hrun & Hformat & _ & _ & _ & Hevents);
    [reflexivity | reflexivity | reflexivity | reflexivity | reflexivity |].
  exists v, w'. split; [exact Hrun|]. split; [exact Hformat | exact Hevents].
Defined.

(** C2 fails on the code: the title "!!!" is sanitized to the empty string,
    and the upload still succeeds and stores two objects, with the keys
    videos/2025/07/.mp4 and videos/2025/07/metadata/.json. *)
Lemma upload_symbols_title_succeeds :
  @sanitizeFileName demoRuntime (lit "!!!") = []
  /\ exists (v : VideoMetadata.t) (w' : world),
       @uploadVideo demoRuntime demoFile 0%nat july2025
         (worldWith (demoDto "!!!" None)) = (inr v, w')
       /\ bucket (worldWith (demoDto "!!!" None)) = []
       /\ List.map GcsObject.name (bucket w')
          = [lit "videos/2025/07/.mp4"; lit "videos/2025/07/metadata/.json"].
Proof.
  split; [reflexivity|].
  eexists; eexists.
  split; [apply uploadVideo_run; reflexivity|].
  split; reflexivity.
Qed.

Lemma upload_empty_sanitized_title_witness :
  exists (v : VideoMetadata.t) (w' : world),
    @uploadVideo demoRuntime demoFile 0%nat july2025
      (worldWith (demoDto "!!!" None)) = (inr v, w')
    /\ events w' = [PutObject (lit "videos/2025/07/.mp4");
                    PutObject (lit "videos/2025/07/metadata/.json")].
Proof.
  destruct (@upload_empty_sanitized_title demoRuntime demoFile 0%nat july2025
              (demoDto "!!!" None) (worldWith (demoDto "!!!" None)))
    as (v & w' & Hrun & Hevents & _); [reflexivity | reflexivity |].
  exists v, w'. split; [exact Hrun | exact Hevents].
Defined.

(** C10 fails on the code for the empty string: it is a string of tags, yet
    after the upload the caller's DTO still holds the empty string, not a
    list, and no assignment was made; only the returned record has the
    empty list. *)
Lemma upload_empty_tags_string_kept :
  exists (v : VideoMetadata.t) (w' : world),
    @uploadVideo demoRuntime demoFile 0%nat july2025
      (worldWith (demoDto "cat" (Some (TagsString [])))) = (inr v, w')
    /\ heap w' !! 0%nat = Some (demoDto "cat" (Some (TagsString [])))
    /\ VideoMetadata.tags v = Some (TagsArray [])
    /\ events w' = [PutObject (lit "videos/2025/07/cat.mp4");
                    PutObject (lit "videos/2025/07/metadata/cat.json")].
Proof.
  eexists; eexists.
  split; [apply uploadVideo_run; reflexivity|].
  repeat split; reflexivity.
Qed.

Lemma upload_reassigns_tags_witness :
  exists (v : VideoMetadata.t) (w' : world),
    @uploadVideo demoRuntime demoFile 0%nat july2025
      (worldWith (demoDto "cat" (Some (TagsString (lit "pets, cats ,cute")))))
    = (inr v, w')
    /\ heap w' !! 0%nat
       = Some (demoDto "cat"
                 (Some (TagsArray [lit "pets"; lit "cats"; lit "cute"]))).
Proof.
  destruct (@upload_reassigns_tags demoRuntime demoFile 0%nat july2025
              (demoDto "cat" (Some (TagsString (lit "pets, cats ,cute"))))
              (worldWith (demoDto "cat" (Some (TagsString (lit "pets, cats ,cute")))))
              112 (lit "ets, cats ,cute"))
    as (v & w' & Hrun & Hheap & _); [reflexivity | reflexivity |].
  exists v, w'. split; [exact Hrun|]. rewrite Hheap. reflexivity.
Defined.

(** ** Sorting *)

Section Sort.
Context {A : Type} (comparefn : A -> A -> jsnum) (key : A -> Z) (P : A -> Prop).
Hypothesis comparefn_key :
  forall x y, P x -> P y -> compareValue (comparefn x y) = (key y - key x)%Z.

Lemma insertSorted_perm (x : A) (l : list A) :
  Permutation (insertSorted comparefn x l) (x :: l).
Proof.
  induction l as [|y l IH]; cbn [insertSorted]; [reflexivity|].
  destruct (0 <? compareValue (comparefn x y))%Z; [|reflexivity].
  rewrite IH. apply perm_swap.
Qed.

Lemma arraySort_perm (l : list A) : Permutation (arraySort comparefn l) l.
Proof.
  unfold arraySort. induction l as [|x l IH]; cbn [fold_right]; [reflexivity|].
  rewrite insertSorted_perm. now constructor.
Qed.

Lemma arraySort_Forall (l : list A) : Forall P l -> Forall P (arraySort comparefn l).
Proof.
  intros Hl. eapply Permutation_Forall; [|exact Hl].
  symmetry. apply arraySort_perm.
Qed.

Lemma insertSorted_sorted (x : A) (l : list A) :
  P x -> Forall P l ->
  StronglySorted (fun a b => (key b <= key a)%Z) l ->
  StronglySorted (fun a b => (key b <= key a)%Z) (insertSorted comparefn x l).
Proof.
  intros Hx Hl Hs. induction Hs as [|y l Hs IH Hy]; cbn [insertSorted].
  - repeat constructor.
  - apply Forall_cons_1 in Hl as [Py Hl].
    rewrite (comparefn_key x y Hx Py).
    destruct (0 <? key y - key x)%Z eqn:Hlt.
    + apply Z.ltb_lt in Hlt. constructor; [now apply IH|].
      eapply Permutation_Forall; [symmetry; apply insertSorted_perm|].
      constructor; [lia | exact Hy].
    + apply Z.ltb_ge in Hlt. constructor; [now constructor|].
      constructor; [lia|].
      eapply Forall_impl; [exact Hy|]. cbn beta. intros z Hz. lia.
Qed.

Lemma arraySort_sorted (l : list A) :
  Forall P l ->
  StronglySorted (fun a b => (key b <= key a)%Z) (arraySort comparefn l).
Proof.
  induction 1 as [|x l Hx Hl IH]; [constructor|].
  change (arraySort comparefn (x :: l))
    with (insertSorted comparefn x (arraySort comparefn l)).
  apply insertSorted_sorted; auto using arraySort_Forall.
Qed.

(** Insertion does not reorder elements of equal key: [x] passes only
    elements of a strictly greater key. *)
Lemma insertSorted_stable (t : Z) (x : A) (l : list A) :
  P x -> Forall P l ->
  List.filter (fun a => key a =? t)%Z (insertSorted comparefn x l)
  = List.filter (fun a => key a =? t)%Z (x :: l).
Proof.
  intros Hx Hl. induction Hl as [|y l Py Hl IH]; [reflexivity|].
  cbn [insertSorted]. rewrite (comparefn_key x y Hx Py).
  destruct (0 <? key y - key x)%Z eqn:Hlt; [|reflexivity].
  apply Z.ltb_lt in Hlt.
  cbn [List.filter] in *. rewrite IH.
  destruct (key y =? t)%Z eqn:Hy; [|reflexivity].
  apply Z.eqb_eq in Hy.
  replace (key x =? t)%Z with false; [reflexivity|].
  symmetry. apply Z.eqb_neq. lia.
Qed.

Lemma arraySort_stable (t : Z) (l : list A) :
  Forall P l ->
  List.filter (fun a => key a =? t)%Z (arraySort comparefn l)
  = List.filter (fun a => key a =? t)%Z l.
Proof.
  induction 1 as [|x l Hx Hl IH]; [reflexivity|].
  change (arraySort comparefn (x :: l))
    with (insertSorted comparefn x (arraySort comparefn l)).
  rewrite insertSorted_stable by auto using arraySort_Forall.
  cbn [List.filter]. now rewrite IH.
Qed.

Lemma filter_key_head (t : Z) (l : list A) (a : A) (rest : list A) :
  List.filter (fun x => key x =? t)%Z l = a :: rest -> In a l /\ key a = t.
Proof.
  intros Hf. assert (Hin : In a (List.filter (fun x => key x =? t)%Z l))
    by (rewrite Hf; now left).
  apply List.filter_In in Hin as [Hin Hk]. split; [exact Hin | now apply Z.eqb_eq].
Qed.

(** Two lists in descending order of key that hold, for every key, the
    same elements in the same order are equal: the outcome of a stable sort
    is determined by its input, whatever algorithm the engine runs. *)
Lemma stable_sorted_unique (l1 l2 : list A) :
  StronglySorted (fun a b => (key b <= key a)%Z) l1 ->
  StronglySorted (fun a b => (key b <= key a)%Z) l2 ->
  (forall t, List.filter (fun x => key x =? t)%Z l1
             = List.filter (fun x => key x =? t)%Z l2) ->
  l1 = l2.
Proof.
  intros Hs1. revert l2.
  induction Hs1 as [|a l1 Hs1 IH Ha]; intros l2 Hs2 Hf.
  - destruct l2 as [|b l2]; [reflexivity|].
    specialize (Hf (key b)). cbn [List.filter] in Hf.
    rewrite Z.eqb_refl in Hf. discriminate Hf.
  - destruct Hs2 as [|b l2 Hs2 Hb].
    { specialize (Hf (key a)). cbn [List.filter] in Hf.
      rewrite Z.eqb_refl in Hf. discriminate Hf. }
    assert (Hab : key a = key b).
    { assert (Hfa : List.filter (fun x => key x =? key a)%Z (b :: l2)
                    = a :: List.filter (fun x => key x =? key a)%Z l1)
        by (rewrite <- Hf; cbn [List.filter]; now rewrite Z.eqb_refl).
      assert (Hfb : List.filter (fun x => key x =? key b)%Z (a :: l1)
                    = b :: List.filter (fun x => key x =? key b)%Z l2)
        by (rewrite Hf; cbn [List.filter]; now rewrite Z.eqb_refl).
      apply filter_key_head in Hfa as [Hina _].
      apply filter_key_head in Hfb as [Hinb _].
      rewrite Forall_forall in Ha, Hb.
      assert (key a <= key b)%Z.
      { destruct Hina as [->|Hina]; [lia|]. now apply Hb, list_elem_of_In. }
      assert (key b <= key a)%Z.
      { destruct Hinb as [->|Hinb]; [lia|]. now apply Ha, list_elem_of_In. }
      lia. }
    assert (a = b).
    { specialize (Hf (key a)). cbn [List.filter] in Hf.
      rewrite <- Hab, Z.eqb_refl in Hf. now injection Hf. }
    subst b. f_equal. apply IH; [exact Hs2|].
    intros t. specialize (Hf t). cbn [List.filter] in Hf.
    destruct (key a =? t)%Z; [now injection Hf | exact Hf].
Qed.

(** Whatever list is sorted by the comparator and stable with respect to
    the input is the list [arraySort] computes. *)
Lemma arraySort_unique (l sorted : list A) :
  Forall P l ->
  StronglySorted (fun a b => (key b <= key a)%Z) sorted ->
  (forall t, List.filter (fun x => key x =? t)%Z sorted
             = List.filter (fun x => key x =? t)%Z l) ->
  sorted = arraySort comparefn l.
Proof.
  intros Hl Hs Hf. apply stable_sorted_unique; [exact Hs | now apply arraySort_sorted|].
  intros t. now rewrite Hf, arraySort_stable.
Qed.

End Sort.

(** ** Listing *)

Section Listing.
Context `{Runtime}.

Lemma metadataFiles_filter (objs : list GcsObject.t) :
  List.filter isMetadataFile
    (List.filter (fun o => startsWith (lit "videos/") (GcsObject.name o)) objs)
  = List.filter
      (fun o => startsWith (lit "videos/") (GcsObject.name o)
                && includes (lit "/metadata/") (GcsObject.name o)
                && endsWith (lit ".json") (GcsObject.name o)) objs.
Proof.
  induction objs as [|o objs IH]; [reflexivity|]. cbn [List.filter].
  destruct (startsWith (lit "videos/") (GcsObject.name o)); cbn [andb List.filter].
  - unfold isMetadataFile at 1. rewrite IH. reflexivity.
  - exact IH.
Qed.

(** The loop over the metadata files returns every record when every file
    parses. *)
Lemma forEachPush_parsed (files : list GcsObject.t) (vs : list VideoMetadata.t)
  (w : world) :
  Forall2 (fun o v => JSON_parse (GcsObject.content o) = inr v) files vs ->
  forEachPush (fun file => content ← download file; parseMetadata content) files w
  = (inr vs, w).
Proof.
  induction 1 as [|o v files vs Hov _ IH]; [reflexivity|].
  cbn [forEachPush]. rewrite !bind_run.
  unfold download at 1, parseMetadata at 1. cbn. rewrite Hov. cbn.
  rewrite bind_run, IH. reflexivity.
Qed.

(** The loop stops at the first file that does not parse, with the
    parser's error. *)
Lemma forEachPush_corrupt (pre post : list GcsObject.t) (o : GcsObject.t)
  (message : jsstring) (w : world) :
  Forall (fun p => exists v, JSON_parse (GcsObject.content p) = inr v) pre ->
  JSON_parse (GcsObject.content o) = inl message ->
  forEachPush (fun file => content ← download file; parseMetadata content)
    (pre ++ o :: post) w
  = (inl (SyntaxError message), w).
Proof.
  intros Hpre Ho. induction Hpre as [|p pre [v Hp] _ IH]; cbn [app forEachPush].
  - rewrite !bind_run. unfold download at 1, parseMetadata at 1. cbn.
    rewrite Ho. reflexivity.
  - rewrite !bind_run. unfold download at 1, parseMetadata at 1. cbn.
    rewrite Hp. cbn. rewrite bind_run, IH. reflexivity.
Qed.

Lemma getAllVideos_run (w : world) :
  getAllVideos w
  = match forEachPush (fun file => content ← download file; parseMetadata content)
            (metadataFiles w) w with
    | (inl e, w') => (inl e, w')
    | (inr videos, w') => (inr (arraySort byUploadDateDesc videos), w')
    end.
Proof.
  unfold getAllVideos. rewrite tryCatch_rethrow. reflexivity.
Qed.

Lemma byUploadDateDesc_key (x y : VideoMetadata.t) :
  hasUploadTime x -> hasUploadTime y ->
  compareValue (byUploadDateDesc x y) = (timeOf y - timeOf x)%Z.
Proof.
  unfold hasUploadTime, byUploadDateDesc, timeOf. intros Hx Hy.
  destruct (uploadTime x), (uploadTime y); try contradiction. reflexivity.
Qed.

(** C5: take the objects of the bucket whose key begins with videos/,
    contains /metadata/ and ends in .json, in listing order, and let every
    one of them hold a record with an upload date (a stored catalog). Then
    [getAllVideos] returns, without touching the world, exactly the records
    of these objects, arranged so that no record is followed by a newer
    one, and with records of equal upload time in their listing order. *)
Theorem getAllVideos_sorted (w : world) (vs : list VideoMetadata.t) :
  Forall2 (fun o v => JSON_parse (GcsObject.content o) = inr v)
    (List.filter
       (fun o => startsWith (lit "videos/") (GcsObject.name o)
                 && includes (lit "/metadata/") (GcsObject.name o)
                 && endsWith (lit ".json") (GcsObject.name o))
       (bucket w))
    vs ->
  Forall hasUploadTime vs ->
  exists result : list VideoMetadata.t,
    getAllVideos w = (inr result, w)
    /\ Permutation result vs
    /\ Sorted notOlder result
    /\ forall t : Z,
         List.filter (fun v => timeOf v =? t)%Z result
         = List.filter (fun v => timeOf v =? t)%Z vs.
Proof.
  intros Hparse Hdates. rewrite <- metadataFiles_filter in Hparse.
  exists (arraySort byUploadDateDesc vs).
  split.
  { rewrite getAllVideos_run. unfold metadataFiles.
    now rewrite (forEachPush_parsed _ vs w Hparse). }
  split; [apply arraySort_perm|].
  split.
  - apply StronglySorted_Sorted.
    apply (arraySort_sorted byUploadDateDesc timeOf hasUploadTime
             byUploadDateDesc_key vs Hdates).
  - intros t.
    apply (arraySort_stable byUploadDateDesc timeOf hasUploadTime
             byUploadDateDesc_key t vs Hdates).
Qed.

Lemma getAllVideos_first_corrupt (w : world)
  (pre post : list GcsObject.t) (o : GcsObject.t) (message : jsstring) :
  metadataFiles w = pre ++ o :: post ->
  Forall (fun p => exists v, JSON_parse (GcsObject.content p) = inr v) pre ->
  JSON_parse (GcsObject.content o) = inl message ->
  getAllVideos w = (inl (SyntaxError message), w).
Proof.
  intros Hfiles Hpre Ho. rewrite getAllVideos_run, Hfiles.
  now rewrite (forEachPush_corrupt pre post o message w Hpre Ho).
Qed.

(** Among files of which one does not parse there is a first such. *)
Lemma first_corrupt (files : list GcsObject.t) :
  Exists (fun o => exists message, JSON_parse (GcsObject.content o) = inl message)
    files ->
  exists pre o post message,
    files = pre ++ o :: post
    /\ Forall (fun p => exists v, JSON_parse (GcsObject.content p) = inr v) pre
    /\ JSON_parse (GcsObject.content o) = inl message.
Proof.
  induction files as [|f files IH]; intros Hex; [inversion Hex|].
  destruct (JSON_parse (GcsObject.content f)) as [message|v] eqn:Hf.
  - exists [], f, files, message. now repeat split.
  - assert (Hrest : Exists (fun o => exists message,
                       JSON_parse (GcsObject.content o) = inl message) files).
    { inversion Hex as [? ? [m Hm]|]; subst; [congruence | assumption]. }
    destruct (IH Hrest) as (pre & o & post & message & -> & Hpre & Ho).
    exists (f :: pre), o, post, message. repeat split; [|exact Ho].
    constructor; [now exists v | exact Hpre].
Qed.

(** C7, as the code has it: when any metadata object does not parse, the
    listing as a whole fails, with no record returned, nothing skipped and
    the world as it was. What is thrown is the SyntaxError that [JSON.parse]
    raised for the first of these objects in listing order: the metadata
    files split into files that parse, then the object [o] whose message
    is thrown, then the rest. The message is computed from that object's
    content, and the key is not part of it. *)
Theorem getAllVideos_corrupt_metadata (w : world) :
  Exists (fun o => exists message, JSON_parse (GcsObject.content o) = inl message)
    (List.filter
       (fun o => startsWith (lit "videos/") (GcsObject.name o)
                 && includes (lit "/metadata/") (GcsObject.name o)
                 && endsWith (lit ".json") (GcsObject.name o))
       (bucket w)) ->
  exists (pre post : list GcsObject.t) (o : GcsObject.t) (message : jsstring),
    List.filter
      (fun o => startsWith (lit "videos/") (GcsObject.name o)
                && includes (lit "/metadata/") (GcsObject.name o)
                && endsWith (lit ".json") (GcsObject.name o))
      (bucket w)
    = pre ++ o :: post
    /\ Forall (fun p => exists v, JSON_parse (GcsObject.content p) = inr v) pre
    /\ In o (bucket w)
    /\ JSON_parse (GcsObject.content o) = inl message
    /\ getAllVideos w = (inl (SyntaxError message), w).
Proof.
  intros Hex. rewrite <- metadataFiles_filter in *.
  destruct (first_corrupt _ Hex) as (pre & o & post & message & Hfiles & Hpre & Ho).
  exists pre, post, o, message.
  split; [exact Hfiles|]. split; [exact Hpre|]. split; [|split; [exact Ho|]].
  - assert (Hin : In o (metadataFiles w)).
    { unfold metadataFiles. rewrite Hfiles. apply in_or_app. right. now left. }
    unfold metadataFiles in Hin.
    apply List.filter_In in Hin as [Hin _]. apply List.filter_In in Hin as [Hin _].
    exact Hin.
  - now apply (getAllVideos_first_corrupt w pre post o message).
Qed.

End Listing.

(** *** Examples of listings *)

(** The example bucket lists newest first, the cat before the owl, which
    shares its instant and follows it in the listing of the bucket. *)
Lemma getAllVideos_example :
  @getAllVideos demoRuntime demoWorld
  = (inr [dogVideo; catVideo; owlVideo; foxVideo], demoWorld).
Proof. reflexivity. Qed.

Lemma getAllVideos_sorted_witness :
  exists result : list VideoMetadata.t,
    @getAllVideos demoRuntime demoWorld = (inr result, demoWorld)
    /\ Permutation result [foxVideo; catVideo; dogVideo; owlVideo]
    /\ Sorted (@notOlder demoRuntime) result.
Proof.
  destruct (@getAllVideos_sorted demoRuntime demoWorld
              [foxVideo; catVideo; dogVideo; owlVideo])
    as (result & Hrun & Hperm & Hsorted & _).
  - vm_compute List.filter. repeat constructor.
  - repeat constructor; discriminate.
  - exists result. split; [exact Hrun|]. split; [exact Hperm | exact Hsorted].
Defined.

(** C7 fails on the code: the same empty metadata file stored under two
    different keys makes the listing fail with one and the same error, a
    SyntaxError with the parser's message, so the error does not tell which
    key was at fault. *)
Lemma corrupt_metadata_error_names_no_key :
  fst (@getAllVideos demoRuntime (corruptWorld "videos/2025/07/metadata/cat.json"))
  = inl (SyntaxError (lit "Unexpected end of JSON input"))
  /\ fst (@getAllVideos demoRuntime (corruptWorld "videos/2025/06/metadata/fox.json"))
     = inl (SyntaxError (lit "Unexpected end of JSON input"))
  /\ lit "videos/2025/07/metadata/cat.json" <> lit "videos/2025/06/metadata/fox.json".
Proof.
  split; [reflexivity|]. split; [reflexivity|].
  intros Heq. vm_compute in Heq. discriminate Heq.
Qed.

Lemma getAllVideos_corrupt_metadata_witness :
  exists (pre post : list GcsObject.t) (o : GcsObject.t) (message : jsstring),
    Forall (fun p => exists v, demoParse (GcsObject.content p) = inr v) pre
    /\ demoParse (GcsObject.content o) = inl message
    /\ @getAllVideos demoRuntime
         (mkWorld ∅ (demoBucket ++ [demoObject "videos/2025/08/metadata/new.json" []]) [])
       = (inl (SyntaxError message),
          mkWorld ∅ (demoBucket ++ [demoObject "videos/2025/08/metadata/new.json" []]) []).
Proof.
  destruct (@getAllVideos_corrupt_metadata demoRuntime
              (mkWorld ∅ (demoBucket
                          ++ [demoObject "videos/2025/08/metadata/new.json" []]) []))
    as (pre & post & o & message & _ & Hpre & _ & Ho & Hrun).
  - vm_compute List.filter. do 4 apply Exists_cons_tl. apply Exists_cons_hd.
    eexists. reflexivity.
  - exists pre, post, o, message. split; [exact Hpre|]. split; [exact Ho | exact Hrun].
Defined.

(** ** Lookup by title *)

Lemma startsWith_app (p q s : jsstring) :
  startsWith (p ++ q) s = true -> startsWith p s = true.
Proof.
  revert s. induction p as [|a p IH]; intros s Hs; [reflexivity|].
  destruct s as [|b s]; [discriminate Hs|]. cbn [app startsWith] in *.
  apply andb_true_iff in Hs as [Hab Hs]. rewrite Hab. cbn [andb]. now apply IH.
Qed.

(** A number never prints with an asterisk in front. *)
Lemma numberToString_head (z : Z) :
  exists c rest, numberToString z = c :: rest /\ c <> 42.
Proof.
  unfold numberToString, NilZero.string_of_int.
  destruct (Z.to_int z) as [u|u].
  - destruct u; cbn; eexists; eexists; (split; [reflexivity|]);
      intros Heq; vm_compute in Heq; discriminate Heq.
  - cbn. eexists; eexists; (split; [reflexivity|]).
    intros Heq; vm_compute in Heq; discriminate Heq.
Qed.

Lemma dated_key_no_star (now : JsDate.t) (rest : jsstring) :
  startsWith (lit "videos/*") (lit "videos/" ++ yearMonth now ++ rest) = false.
Proof.
  unfold yearMonth.
  destruct (numberToString_head (JsDate.getFullYear now)) as (c & tl & -> & Hc).
  change (lit "videos/*") with (lit "videos/" ++ [42]).
  change (lit "videos/") with [118; 105; 100; 101; 111; 115; 47].
  cbn [app startsWith]. rewrite !N.eqb_refl. cbn [andb].
  apply N.eqb_neq in Hc. rewrite N.eqb_sym, Hc. reflexivity.
Qed.

Lemma upsert_Forall (Q : GcsObject.t -> Prop) (o : GcsObject.t)
  (objs : list GcsObject.t) :
  Q o -> Forall Q objs -> Forall Q (upsert o objs).
Proof.
  intros Ho. induction 1 as [|o' objs Ho' Hobjs IH]; cbn [upsert].
  - now repeat constructor.
  - destruct (bool_decide _); constructor; auto.
Qed.

Section Lookup.
Context `{Runtime}.

(** Nothing is found unless some key begins, literally, with [videos/*]. *)
Lemma getVideoById_no_star (title : jsstring) (w : world) :
  Forall (fun o => startsWith (lit "videos/*") (GcsObject.name o) = false) (bucket w) ->
  getVideoById title w = (inr None, w).
Proof.
  intros Hkeys. unfold getVideoById. rewrite tryCatch_rethrow, bind_run.
  unfold getFiles.
  replace (List.filter _ (bucket w)) with (@nil GcsObject.t); [reflexivity|].
  symmetry. induction Hkeys as [|o objs Ho _ IH]; [reflexivity|].
  cbn [List.filter]. rewrite IH.
  destruct (startsWith (lit "videos/*/metadata/" ++ _) (GcsObject.name o))
    eqn:Hstart; [|reflexivity].
  change (lit "videos/*/metadata/") with (lit "videos/*" ++ lit "/metadata/") in Hstart.
  rewrite <- app_assoc in Hstart. apply startsWith_app in Hstart. congruence.
Qed.

(** The keys an upload writes carry the year where the lookup expects an
    asterisk. *)
Lemma upload_keys_no_star (file : MulterFile.t) (r : ref) (d : UploadVideoDto.t)
  (now : JsDate.t) (w : world) :
  Forall (fun o => startsWith (lit "videos/*") (GcsObject.name o) = false) (bucket w) ->
  Forall (fun o => startsWith (lit "videos/*") (GcsObject.name o) = false)
    (bucket (worldAfterUpload file r d now w)).
Proof.
  intros Hkeys. cbn [worldAfterUpload bucket].
  apply upsert_Forall; [apply dated_key_no_star|].
  apply upsert_Forall; [apply dated_key_no_star | exact Hkeys].
Qed.

(** C3, on the code: [getVideoById] asks the bucket for the keys that begin
    with the text videos/*/metadata/{sanitizedTitle}.json, asterisk
    included. Right after an upload has stored the metadata object of a
    title under videos/{year}/{month}/metadata/{sanitizedTitle}.json, the
    lookup of that very title returns null. *)
Theorem getVideoById_misses_uploaded_video (file : MulterFile.t) (metadata : ref)
  (now : JsDate.t) (d : UploadVideoDto.t) (w : world) :
  heap w !! metadata = Some d ->
  Forall (fun o => startsWith (lit "videos/*") (GcsObject.name o) = false) (bucket w) ->
  exists (v : VideoMetadata.t) (w' : world),
    uploadVideo file metadata now w = (inr v, w')
    /\ (exists o,
          lookupObject
            (lit "videos/" ++ yearMonth now ++ lit "/metadata/"
             ++ sanitizeFileName (UploadVideoDto.title d) ++ lit ".json")
            (bucket w') = Some o
          /\ GcsObject.content o = JSON_stringify v)
    /\ getVideoById (UploadVideoDto.title d) w' = (inr None, w').
Proof.
  intros Hd Hkeys.
  exists (videoMetadataOf file d now), (worldAfterUpload file metadata d now w).
  split; [now apply uploadVideo_run|]. split.
  - exists (metadataObjectOf file d now). split; [|reflexivity].
    apply upload_metadata_object.
  - apply getVideoById_no_star, upload_keys_no_star, Hkeys.
Qed.

End Lookup.

Lemma getVideoById_misses_uploaded_video_witness :
  exists (v : VideoMetadata.t) (w' : world),
    @uploadVideo demoRuntime demoFile 0%nat july2025
      (worldWith (demoDto "cat" None)) = (inr v, w')
    /\ List.map GcsObject.name (bucket w')
       = [lit "videos/2025/07/cat.mp4"; lit "videos/2025/07/metadata/cat.json"]
    /\ @getVideoById demoRuntime (lit "cat") w' = (inr None, w').
Proof.
  destruct (@getVideoById_misses_uploaded_video demoRuntime demoFile 0%nat
              july2025 (demoDto "cat" None) (worldWith (demoDto "cat" None)))
    as (v & w' & Hrun & _ & Hnull); [reflexivity | constructor |].
  exists v, w'. split; [exact Hrun|]. split; [|exact Hnull].
  rewrite (@uploadVideo_run demoRuntime demoFile 0%nat july2025
             (demoDto "cat" None) (worldWith (demoDto "cat" None)) eq_refl) in Hrun.
  injection Hrun as _ <-. reflexivity.
Defined.

(** In the example bucket the record of "cat" is stored and parses, and the
    lookup of "cat" answers null. *)
Lemma getVideoById_cat_not_found :
  option_map (fun o => demoParse (GcsObject.content o))
    (lookupObject (lit "videos/2025/07/metadata/cat.json") demoBucket)
  = Some (inr catVideo)
  /\ @sanitizeFileName demoRuntime (lit "cat") = lit "cat"
  /\ @getVideoById demoRuntime (lit "cat") demoWorld = (inr None, demoWorld).
Proof. repeat split; reflexivity. Qed.

(** ** Random sampling *)

Lemma swap_length {A} (i j : nat) (arr : list A) :
  length (swap i j arr) = length arr.
Proof.
  unfold swap. destruct (arr !! i), (arr !! j); try reflexivity.
  now rewrite !length_insert.
Qed.

Lemma swap_perm {A} (i j : nat) (arr : list A) : Permutation (swap i j arr) arr.
Proof.
  unfold swap. destruct (arr !! i) as [a|] eqn:Hi; [|reflexivity].
  destruct (arr !! j) as [b|] eqn:Hj; [|reflexivity].
  now apply Permutation_insert_swap.
Qed.

Lemma shuffleFrom_perm {A} (random : nat -> nat) (i : nat) (arr : list A) :
  Permutation (shuffleFrom random i arr) arr.
Proof.
  revert arr. induction i as [|i IH]; intros arr; cbn [shuffleFrom]; [reflexivity|].
  rewrite IH. apply swap_perm.
Qed.

(** The shuffle only rearranges. *)
Lemma fisherYates_perm {A} (random : nat -> nat) (arr : list A) :
  Permutation (fisherYates random arr) arr.
Proof. apply shuffleFrom_perm. Qed.

Lemma fisherYates_length {A} (random : nat -> nat) (arr : list A) :
  length (fisherYates random arr) = length arr.
Proof. apply Permutation_length, fisherYates_perm. Qed.

Lemma slice0_length {A} (arr : list A) (z : Z) :
  length (slice0 arr (Int z))
  = Z.to_nat (if (z <? 0)%Z then Z.of_nat (length arr) + z
              else Z.min z (Z.of_nat (length arr))).
Proof.
  unfold slice0. rewrite length_firstn.
  destruct (z <? 0)%Z eqn:Hz; [apply Z.ltb_lt in Hz | apply Z.ltb_ge in Hz]; lia.
Qed.

Lemma slice0_all {A} (arr : list A) (z : Z) :
  (Z.of_nat (length arr) <= z)%Z -> slice0 arr (Int z) = arr.
Proof.
  intros Hz. unfold slice0.
  replace (z <? 0)%Z with false by (symmetry; apply Z.ltb_ge; lia).
  apply firstn_all2. lia.
Qed.

Lemma slice0_In {A} (arr : list A) (end_ : jsnum) (a : A) :
  In a (slice0 arr end_) -> In a arr.
Proof.
  unfold slice0. generalize (Z.to_nat
    (if ((match end_ with NaN => 0 | Int z => z end) <? 0)%Z
     then Z.max (Z.of_nat (length arr) + match end_ with NaN => 0 | Int z => z end) 0
     else Z.min (match end_ with NaN => 0 | Int z => z end) (Z.of_nat (length arr)))).
  intros n Ha. rewrite <- (firstn_skipn n arr). apply in_or_app. now left.
Qed.

Lemma slice0_NaN {A} (arr : list A) : slice0 arr NaN = [].
Proof.
  unfold slice0. cbv iota beta zeta.
  replace (0 <? 0)%Z with false by reflexivity.
  rewrite Z.min_l by lia. reflexivity.
Qed.

Section Random.
Context `{Runtime}.

Lemma getRandomVideos_run (random : nat -> nat) (count : option jsnum)
  (w w' : world) (allVideos : list VideoMetadata.t) :
  getAllVideos w = (inr allVideos, w') ->
  getRandomVideos random count w
  = (inr (match allVideos with
          | [] => []
          | _ :: _ =>
              slice0 (fisherYates random allVideos)
                (Math_min (match count with Some c => c | None => Int 5 end)
                   (Int (Z.of_nat (length allVideos))))
          end), w').
Proof.
  intros Hall. unfold getRandomVideos. rewrite tryCatch_rethrow, bind_run, Hall.
  destruct allVideos; reflexivity.
Qed.

(** A failed listing fails the sampling with the same error. *)
Lemma getRandomVideos_throws (random : nat -> nat) (count : option jsnum)
  (w w' : world) (e : exn) :
  getAllVideos w = (inl e, w') ->
  getRandomVideos random count w = (inl e, w').
Proof.
  intros Hall. unfold getRandomVideos. rewrite tryCatch_rethrow, bind_run, Hall.
  reflexivity.
Qed.

(** For a count that is not negative the sample has [min(count, total)]
    records, all of them from the catalog, and the whole catalog when the
    count reaches its size. *)
Lemma getRandomVideos_count (random : nat -> nat) (z : Z) (w w' : world)
  (allVideos : list VideoMetadata.t) :
  getAllVideos w = (inr allVideos, w') ->
  (0 <= z)%Z ->
  exists sample : list VideoMetadata.t,
    getRandomVideos random (Some (Int z)) w = (inr sample, w')
    /\ length sample = Z.to_nat (Z.min z (Z.of_nat (length allVideos)))
    /\ (forall v, In v sample -> In v allVideos)
    /\ ((Z.of_nat (length allVideos) <= z)%Z -> Permutation sample allVideos).
Proof.
  intros Hall Hz. eexists.
  split; [exact (getRandomVideos_run random _ w w' allVideos Hall)|].
  destruct allVideos as [|v0 vs]; [cbn; repeat split; try easy; lia|].
  set (all := v0 :: vs) in *. cbn [Math_min].
  split; [|split].
  - rewrite slice0_length, fisherYates_length.
    replace (Z.min z (Z.of_nat (length all)) <? 0)%Z with false
      by (symmetry; apply Z.ltb_ge; lia).
    f_equal. lia.
  - intros v Hv. eapply Permutation_in; [apply (fisherYates_perm random)|].
    eapply slice0_In, Hv.
  - intros Hlen. rewrite Z.min_r by exact Hlen.
    rewrite slice0_all by (rewrite fisherYates_length; lia).
    apply fisherYates_perm.
Qed.

(** C1, on the code: a negative count is passed on to [slice] as its end,
    which counts it from the back of the array. The sample then has
    [total + count] records (none only when that is not positive), not the
    empty sequence. *)
Theorem getRandomVideos_negative_count (random : nat -> nat) (z : Z)
  (w w' : world) (allVideos : list VideoMetadata.t) :
  getAllVideos w = (inr allVideos, w') ->
  (z < 0)%Z ->
  exists sample : list VideoMetadata.t,
    getRandomVideos random (Some (Int z)) w = (inr sample, w')
    /\ length sample = Z.to_nat (Z.of_nat (length allVideos) + z).
Proof.
  intros Hall Hz. eexists.
  split; [exact (getRandomVideos_run random _ w w' allVideos Hall)|].
  destruct allVideos as [|v0 vs]; [cbn; lia|].
  set (all := v0 :: vs) in *. cbn [Math_min].
  rewrite slice0_length, fisherYates_length.
  replace (Z.min z (Z.of_nat (length all)) <? 0)%Z with true
    by (symmetry; apply Z.ltb_lt; lia).
  f_equal. lia.
Qed.

(** Without a count, or with the empty string, the endpoint asks for 5. *)
Lemma controller_default_count (random : nat -> nat) (w : world) :
  controller_getRandomVideos random None w
  = getRandomVideos random (Some (Int 5)) w
  /\ controller_getRandomVideos random (Some []) w
     = getRandomVideos random (Some (Int 5)) w.
Proof. split; reflexivity. Qed.

(** C4, on the code: a count with no leading digits is parsed to NaN, NaN
    is passed on as the count, and the endpoint answers with the empty
    list whatever the catalog holds. *)
Theorem controller_non_numeric_count (random : nat -> nat) (c : N) (s : jsstring)
  (w w' : world) (allVideos : list VideoMetadata.t) :
  parseInt10 (c :: s) = NaN ->
  getAllVideos w = (inr allVideos, w') ->
  controller_getRandomVideos random (Some (c :: s)) w = (inr [], w').
Proof.
  intros Hnan Hall. unfold controller_getRandomVideos. rewrite Hnan.
  rewrite (getRandomVideos_run random (Some NaN) w w' allVideos Hall).
  destruct allVideos; [reflexivity|]. cbn [Math_min]. now rewrite slice0_NaN.
Qed.

End Random.

Lemma getRandomVideos_negative_count_witness :
  exists sample : list VideoMetadata.t,
    @getRandomVideos demoRuntime (fun i => i) (Some (Int (-1))) demoWorld
    = (inr sample, demoWorld)
    /\ length sample = 3%nat.
Proof.
  apply (@getRandomVideos_negative_count demoRuntime (fun i => i) (-1)%Z
           demoWorld demoWorld [dogVideo; catVideo; owlVideo; foxVideo]);
    [reflexivity | lia].
Defined.

Lemma controller_non_numeric_count_witness :
  @controller_getRandomVideos demoRuntime (fun i => i) (Some (lit "abc")) demoWorld
  = (inr [], demoWorld)
  /\ exists sample : list VideoMetadata.t,
       @controller_getRandomVideos demoRuntime (fun i => i) None demoWorld
       = (inr sample, demoWorld)
       /\ length sample = 4%nat.
Proof.
  split.
  - apply (@controller_non_numeric_count demoRuntime (fun i => i) 97 (lit "bc")
             demoWorld demoWorld [dogVideo; catVideo; owlVideo; foxVideo]);
      reflexivity.
  - eexists. split; reflexivity.
Defined.

(** * Further properties of the service *)

(** ** Sanitized titles *)

Section SanitizeMore.
Context `{Runtime}.

(** A sanitized title is made of lower-case ASCII letters, digits, Hangul
    syllables and hyphens only: no white space, no slash, no dot, no
    upper-case letter, whatever the title was. *)
Theorem sanitizeFileName_alphabet (title : jsstring) :
  Forall (fun c => 97 <= c <= 122 \/ 48 <= c <= 57
                   \/ 44032 <= c <= 55203 \/ c = 45)
    (sanitizeFileName title).
Proof.
  eapply Forall_impl; [apply sanitizeFileName_safe|].
  intros c Hc. unfold isSafe in Hc. class_bool. lia.
Qed.

Lemma hyphenateFrom_length (inRun : bool) (s : jsstring) :
  (length (hyphenateFrom inRun s) <= length s)%nat.
Proof.
  revert inRun. induction s as [|c s IH]; intros inRun; cbn [hyphenateFrom length];
    [lia|].
  destruct (isSpace c); [destruct inRun|].
  - specialize (IH true). lia.
  - specialize (IH true). cbn [length]. lia.
  - specialize (IH false). cbn [length]. lia.
Qed.

(** Sanitizing never lengthens a title: characters are dropped, runs of
    white space shrink to one hyphen, and lower-casing keeps the length. *)
Theorem sanitizeFileName_length (title : jsstring) :
  (length (sanitizeFileName title) <= length title)%nat.
Proof.
  unfold sanitizeFileName, hyphenate.
  rewrite toLowerCase_plain.
  - rewrite length_map.
    pose proof (hyphenateFrom_length false (stripSpecial title)).
    pose proof (filter_length_le isAllowed title) as Hf.
    unfold stripSpecial in *. lia.
  - eapply Forall_impl; [apply hyphenateFrom_word, stripSpecial_allowed|].
    apply isWord_plain.
Qed.

End SanitizeMore.

Section SanitizeFixed.
Context `{Runtime}.

(** The titles that sanitization leaves as they are, are exactly the strings
    over [a-z0-9가-힣-]. *)
Theorem sanitizeFileName_fixed_points (s : jsstring) :
  sanitizeFileName s = s <-> Forall (fun c => isSafe c = true) s.
Proof.
  split.
  - intros Hfix. rewrite <- Hfix. apply sanitizeFileName_safe.
  - apply sanitizeFileName_fixed.
Qed.

End SanitizeFixed.

(** ** File extensions *)

Lemma split_no_sep (sep : N) (s : jsstring) :
  Forall (fun c => c <> sep) s -> split sep s = [s].
Proof.
  induction 1 as [|c s Hc _ IH]; [reflexivity|].
  cbn [split]. apply N.eqb_neq in Hc. now rewrite Hc, IH.
Qed.

Section Extension.
Context `{Runtime}.

(** The extension is the text after the last dot of the file name, in lower
    case, however many dots come before it. *)
Theorem getFileExtension_after_last_dot (stem ext : jsstring) :
  ext <> [] ->
  Forall (fun c => c <> 46) ext ->
  Forall (fun c => isAscii c || isHangul c = true) ext ->
  getFileExtension (stem ++ 46 :: ext) = List.map lowerUnit ext.
Proof.
  intros Hne Hdot Hplain. unfold getFileExtension.
  rewrite last_split_app_sep, (split_no_sep 46 ext Hdot). cbn [List.last].
  rewrite (toLowerCase_plain ext Hplain).
  destruct ext as [|c ext]; [contradiction | reflexivity].
Qed.

(** A name that ends in a dot, and the empty name, have no extension of
    their own and get [mp4]. *)
Theorem getFileExtension_fallback (stem : jsstring) :
  getFileExtension (stem ++ lit ".") = lit "mp4"
  /\ getFileExtension [] = lit "mp4".
Proof.
  split; [|reflexivity]. unfold getFileExtension.
  change (lit ".") with [46]. rewrite last_split_app_sep. reflexivity.
Qed.

(** A non-empty name without any dot, made of ASCII and Hangul code units,
    is its own extension, in lower case: the fallback [mp4] is not used
    for it. *)
Theorem getFileExtension_no_dot (name : jsstring) :
  name <> [] ->
  Forall (fun c => c <> 46) name ->
  Forall (fun c => isAscii c || isHangul c = true) name ->
  getFileExtension name = List.map lowerUnit name.
Proof.
  intros Hne Hdot Hplain. unfold getFileExtension.
  rewrite (split_no_sep 46 name Hdot). cbn [List.last].
  rewrite (toLowerCase_plain name Hplain).
  destruct name as [|c name]; [contradiction | reflexivity].
Qed.

End Extension.

Lemma getFileExtension_after_last_dot_witness :
  @getFileExtension demoRuntime (lit "My.Holiday.Clip.MOV") = lit "mov".
Proof.
  apply (@getFileExtension_after_last_dot demoRuntime (lit "My.Holiday.Clip")
           (lit "MOV")).
  - discriminate.
  - repeat constructor; intros Heq; vm_compute in Heq; discriminate Heq.
  - repeat constructor.
Defined.

Lemma getFileExtension_no_dot_witness :
  @getFileExtension demoRuntime (lit "Clip") = lit "clip".
Proof.
  apply (@getFileExtension_no_dot demoRuntime (lit "Clip")).
  - discriminate.
  - repeat constructor; intros Heq; vm_compute in Heq; discriminate Heq.
  - repeat constructor.
Defined.

(** ** Tags *)

Lemma trimStart_head (s : jsstring) :
  match trimStart s with c :: _ => isSpace c = false | [] => True end.
Proof.
  induction s as [|c s IH]; cbn [trimStart]; [exact I|].
  destruct (isSpace c) eqn:Hc; [exact IH | exact Hc].
Qed.

(** What [trimStart] removes is white space in front. *)
Lemma trimStart_suffix (s : jsstring) :
  exists pre, s = pre ++ trimStart s /\ Forall (fun c => isSpace c = true) pre.
Proof.
  induction s as [|c s (pre & Hs & Hpre)]; cbn [trimStart].
  - now exists [].
  - destruct (isSpace c) eqn:Hc.
    + exists (c :: pre). split; [cbn [app]; now rewrite <- Hs | now constructor].
    + now exists [].
Qed.

Lemma trimEnd_keeps_head (c : N) (s : jsstring) :
  isSpace c = false -> exists s', trimEnd (c :: s) = c :: s'.
Proof.
  intros Hc. unfold trimEnd.
  destruct (trimStart_suffix (rev (c :: s))) as (pre & Hs & Hpre).
  apply (f_equal (@rev N)) in Hs. rewrite rev_involutive, rev_app_distr in Hs.
  destruct (rev (trimStart (rev (c :: s)))) as [|c' s'] eqn:Ht.
  - cbn [app] in Hs. assert (Hin : In c (rev pre)) by (rewrite <- Hs; now left).
    apply in_rev in Hin. rewrite Forall_forall in Hpre.
    apply list_elem_of_In, Hpre in Hin. congruence.
  - cbn [app] in Hs. injection Hs as -> _. now exists s'.
Qed.

Lemma trim_isTrimmed (s : jsstring) : isTrimmed (trim s).
Proof.
  unfold isTrimmed, trim. split.
  - pose proof (trimStart_head s) as Hhead.
    destruct (trimStart s) as [|c t]; [exact I|].
    destruct (trimEnd_keeps_head c t Hhead) as (t' & ->). exact Hhead.
  - unfold trimEnd. rewrite rev_involutive. apply trimStart_head.
Qed.

Lemma split_length (sep : N) (s : jsstring) :
  length (split sep s) = S (length (List.filter (fun c => c =? sep) s)).
Proof.
  induction s as [|c s IH]; [reflexivity|]. cbn [split List.filter].
  destruct (c =? sep); cbn [length]; [now rewrite IH|].
  pose proof (split_nonempty sep s) as Hne.
  destruct (split sep s) as [|seg segs]; [contradiction | exact IH].
Qed.

Section Tags.
Context `{Runtime}.

(** For tags given as a non-empty string the record carries a list with one
    tag more than the string has commas (empty segments are kept as empty
    tags), and no tag begins or ends with white space. *)
Theorem upload_tags_trimmed (file : MulterFile.t) (metadata : ref)
  (now : JsDate.t) (d : UploadVideoDto.t) (w : world) (c : N) (s : jsstring) :
  heap w !! metadata = Some d ->
  UploadVideoDto.tags d = Some (TagsString (c :: s)) ->
  exists (v : VideoMetadata.t) (w' : world) (l : list jsstring),
    uploadVideo file metadata now w = (inr v, w')
    /\ VideoMetadata.tags v = Some (TagsArray l)
    /\ length l = S (commas (c :: s))
    /\ Forall isTrimmed l.
Proof.
  intros Hd Htags.
  exists (videoMetadataOf file d now), (worldAfterUpload file metadata d now w),
    (List.map trim (split 44 (c :: s))).
  split; [now apply uploadVideo_run|].
  split; [cbn [videoMetadataOf VideoMetadata.tags]; now rewrite Htags|].
  split.
  - rewrite length_map. apply split_length.
  - apply Forall_forall. intros t Ht. apply list_elem_of_In, in_map_iff in Ht.
    destruct Ht as (t0 & <- & _). apply trim_isTrimmed.
Qed.

End Tags.

Lemma upload_tags_trimmed_witness :
  exists (v : VideoMetadata.t) (w' : world),
    @uploadVideo demoRuntime demoFile 0%nat july2025
      (worldWith (demoDto "cat" (Some (TagsString (lit " pets ,, cute")))))
    = (inr v, w')
    /\ VideoMetadata.tags v = Some (TagsArray [lit "pets"; []; lit "cute"]).
Proof.
  destruct (@upload_tags_trimmed demoRuntime demoFile 0%nat july2025
              (demoDto "cat" (Some (TagsString (lit " pets ,, cute"))))
              (worldWith (demoDto "cat" (Some (TagsString (lit " pets ,, cute")))))
              32 (lit "pets ,, cute"))
    as (v & w' & l & Hrun & Htags & _); [reflexivity | reflexivity |].
  exists v, w'. split; [exact Hrun|].
  rewrite (@uploadVideo_run demoRuntime demoFile 0%nat july2025
             (demoDto "cat" (Some (TagsString (lit " pets ,, cute"))))
             (worldWith (demoDto "cat" (Some (TagsString (lit " pets ,, cute")))))
             eq_refl) in Hrun.
  injection Hrun as <- _. reflexivity.
Defined.

(** ** The objects an upload stores *)

(** Two strings that agree, each being a run over [a-z0-9가-힣-] followed by
    a code unit outside it, have the same run. *)
Lemma safe_run_unique (a b r1 r2 : jsstring) (x y : N) :
  Forall (fun c => isSafe c = true) a ->
  Forall (fun c => isSafe c = true) b ->
  isSafe x = false -> isSafe y = false ->
  a ++ x :: r1 = b ++ y :: r2 ->
  a = b /\ x = y.
Proof.
  intros Ha. revert b. induction Ha as [|c a Hc _ IH]; intros b Hb Hx Hy Heq.
  - destruct Hb as [|c b Hc _]; cbn [app] in Heq.
    + now injection Heq.
    + injection Heq as -> _. congruence.
  - destruct Hb as [|c' b Hc' Hb]; cbn [app] in Heq.
    + injection Heq as -> _. congruence.
    + injection Heq as -> Heq. destruct (IH b Hb Hx Hy Heq) as [-> ->].
      now split.
Qed.

Lemma upsert_length_present (o : GcsObject.t) (objs : list GcsObject.t) :
  lookupObject (GcsObject.name o) objs <> None ->
  length (upsert o objs) = length objs.
Proof.
  unfold lookupObject. induction objs as [|o' objs IH]; cbn [List.find upsert];
    [congruence|].
  destruct (bool_decide (GcsObject.name o' = GcsObject.name o)); [reflexivity|].
  intros Hfound. cbn [length]. now rewrite IH.
Qed.

Lemma upsert_length_bounds (o : GcsObject.t) (objs : list GcsObject.t) :
  (length objs <= length (upsert o objs) <= S (length objs))%nat.
Proof.
  induction objs as [|o' objs IH]; cbn [upsert length]; [lia|].
  destruct (bool_decide _); cbn [length]; lia.
Qed.

Section Stored.
Context `{Runtime}.

(** The key of the video and the key of its metadata never coincide: a
    sanitized title has neither the dot that follows it in the one nor the
    slash that precedes it in the other. *)
Lemma upload_keys_differ (file : MulterFile.t) (d : UploadVideoDto.t)
  (now : JsDate.t) :
  gcsPathOf file d now <> metadataPathOf d now.
Proof.
  unfold gcsPathOf, metadataPathOf.
  change (lit "/metadata/") with (lit "/" ++ lit "metadata" ++ lit "/").
  rewrite <- !app_assoc. intros Heq.
  do 3 apply app_inv_head in Heq.
  change (lit "." ++ getFileExtension (MulterFile.originalname file))
    with (46 :: getFileExtension (MulterFile.originalname file)) in Heq.
  change (lit "/" ++ sanitizeFileName (UploadVideoDto.title d) ++ lit ".json")
    with (47 :: sanitizeFileName (UploadVideoDto.title d) ++ lit ".json") in Heq.
  apply safe_run_unique in Heq as [_ Hdot];
    [discriminate Hdot | apply sanitizeFileName_safe | repeat constructor
    | reflexivity | reflexivity].
Qed.

(** Storing and finding: after an upload the video is found under
    videos/{year}/{month}/{sanitized title}.{extension} with the bytes, the
    MIME type and the title and date of the upload, and the record that was
    returned is found, serialized, under
    videos/{year}/{month}/metadata/{sanitized title}.json. The two keys are
    different, so neither write hides the other. *)
Theorem upload_stores_both_objects (file : MulterFile.t) (metadata : ref)
  (now : JsDate.t) (d : UploadVideoDto.t) (w : world) :
  heap w !! metadata = Some d ->
  let videoKey :=
    lit "videos/" ++ yearMonth now ++ lit "/"
    ++ sanitizeFileName (UploadVideoDto.title d) ++ lit "."
    ++ getFileExtension (MulterFile.originalname file) in
  let metadataKey :=
    lit "videos/" ++ yearMonth now ++ lit "/metadata/"
    ++ sanitizeFileName (UploadVideoDto.title d) ++ lit ".json" in
  exists (v : VideoMetadata.t) (w' : world),
    uploadVideo file metadata now w = (inr v, w')
    /\ videoKey <> metadataKey
    /\ lookupObject videoKey (bucket w')
       = Some (GcsObject.mk videoKey (MulterFile.mimetype file)
                 [(lit "title", UploadVideoDto.title d);
                  (lit "uploadDate", JsDate.toISOString now)]
                 (MulterFile.buffer file))
    /\ lookupObject metadataKey (bucket w')
       = Some (GcsObject.mk metadataKey (lit "application/json") []
                 (JSON_stringify v)).
Proof.
  intros Hd videoKey metadataKey.
  exists (videoMetadataOf file d now), (worldAfterUpload file metadata d now w).
  split; [now apply uploadVideo_run|].
  split; [apply upload_keys_differ|].
  split.
  - apply upload_video_object, upload_keys_differ.
  - apply upload_metadata_object.
Qed.

(** An upload leaves every object under another key as it was, and the
    bucket grows by two objects at most. *)
Theorem upload_keeps_other_objects (file : MulterFile.t) (metadata : ref)
  (now : JsDate.t) (d : UploadVideoDto.t) (w : world) (key : jsstring) :
  heap w !! metadata = Some d ->
  key <> gcsPathOf file d now ->
  key <> metadataPathOf d now ->
  let w' := snd (uploadVideo file metadata now w) in
  lookupObject key (bucket w') = lookupObject key (bucket w)
  /\ (length (bucket w) <= length (bucket w') <= 2 + length (bucket w))%nat.
Proof.
  intros Hd Hvideo Hmeta. rewrite (uploadVideo_run file metadata now d w Hd).
  cbn [snd worldAfterUpload bucket]. split.
  - now rewrite !lookupObject_upsert_ne.
  - pose proof (upsert_length_bounds (videoObjectOf file d now) (bucket w)).
    pose proof (upsert_length_bounds (metadataObjectOf file d now)
                  (upsert (videoObjectOf file d now) (bucket w))).
    lia.
Qed.

(** In the heap an upload can change one thing only, the tags of its own
    DTO: every other object is as before, and the DTO keeps its title, its
    description and its category. *)
Theorem upload_heap_frame (file : MulterFile.t) (metadata : ref)
  (now : JsDate.t) (d : UploadVideoDto.t) (w : world) :
  heap w !! metadata = Some d ->
  let w' := snd (uploadVideo file metadata now w) in
  (forall r, r <> metadata -> heap w' !! r = heap w !! r)
  /\ exists d',
       heap w' !! metadata = Some d'
       /\ UploadVideoDto.title d' = UploadVideoDto.title d
       /\ UploadVideoDto.description d' = UploadVideoDto.description d
       /\ UploadVideoDto.category d' = UploadVideoDto.category d.
Proof.
  intros Hd. rewrite (uploadVideo_run file metadata now d w Hd).
  cbn [snd worldAfterUpload heap].
  destruct (UploadVideoDto.tags d) as [[[|c s]|l]|] eqn:Htags.
  1, 3, 4: split; [reflexivity | exists d; now repeat split].
  split.
  - intros r Hr. now rewrite lookup_insert_ne.
  - eexists. split; [apply lookup_insert_eq|]. now repeat split.
Qed.

End Stored.

Lemma lookupObject_upsert_present (key : jsstring) (o : GcsObject.t)
  (objs : list GcsObject.t) :
  lookupObject key objs <> None -> lookupObject key (upsert o objs) <> None.
Proof.
  intros Hfound. destruct (decide (key = GcsObject.name o)) as [->|Hne].
  - now rewrite lookupObject_upsert_eq.
  - now rewrite lookupObject_upsert_ne.
Qed.

Section Overwrite.
Context `{Runtime}.

Lemma worldAfterUpload_heap_other (file : MulterFile.t) (r r' : ref)
  (d : UploadVideoDto.t) (now : JsDate.t) (w : world) :
  r' <> r -> heap (worldAfterUpload file r d now w) !! r' = heap w !! r'.
Proof.
  intros Hne. cbn [worldAfterUpload heap].
  destruct (UploadVideoDto.tags d) as [[[|c s]|l]|]; try reflexivity.
  now rewrite lookup_insert_ne.
Qed.

(** Two uploads in the same month whose titles sanitize alike share their
    metadata key: the second upload succeeds like the first, and afterwards
    that key holds the second record; nothing keeps the first one. The
    bucket gains no metadata object, and no object at all when the
    extensions agree too. *)
Theorem upload_same_title_overwrites (file1 file2 : MulterFile.t) (r1 r2 : ref)
  (now1 now2 : JsDate.t) (d1 d2 : UploadVideoDto.t) (w : world) :
  heap w !! r1 = Some d1 ->
  heap w !! r2 = Some d2 ->
  r1 <> r2 ->
  sanitizeFileName (UploadVideoDto.title d1)
  = sanitizeFileName (UploadVideoDto.title d2) ->
  yearMonth now1 = yearMonth now2 ->
  exists (v1 v2 : VideoMetadata.t) (w1 w2 : world),
    uploadVideo file1 r1 now1 w = (inr v1, w1)
    /\ uploadVideo file2 r2 now2 w1 = (inr v2, w2)
    /\ metadataPathOf d1 now1 = metadataPathOf d2 now2
    /\ lookupObject (metadataPathOf d1 now1) (bucket w1)
       = Some (GcsObject.mk (metadataPathOf d1 now1) (lit "application/json") []
                 (JSON_stringify v1))
    /\ lookupObject (metadataPathOf d1 now1) (bucket w2)
       = Some (GcsObject.mk (metadataPathOf d1 now1) (lit "application/json") []
                 (JSON_stringify v2))
    /\ (length (bucket w2) <= S (length (bucket w1)))%nat
    /\ (getFileExtension (MulterFile.originalname file1)
        = getFileExtension (MulterFile.originalname file2) ->
        length (bucket w2) = length (bucket w1)).
Proof.
  intros Hd1 Hd2 Hne Htitle Hmonth.
  assert (Hkey : metadataPathOf d1 now1 = metadataPathOf d2 now2)
    by (unfold metadataPathOf; now rewrite Htitle, Hmonth).
  set (w1 := worldAfterUpload file1 r1 d1 now1 w).
  assert (Hd2' : heap w1 !! r2 = Some d2)
    by (unfold w1; rewrite worldAfterUpload_heap_other by congruence; exact Hd2).
  exists (videoMetadataOf file1 d1 now1), (videoMetadataOf file2 d2 now2),
    w1, (worldAfterUpload file2 r2 d2 now2 w1).
  split; [now apply uploadVideo_run|].
  split; [now apply uploadVideo_run|].
  split; [exact Hkey|].
  split; [apply upload_metadata_object|].
  split; [rewrite Hkey; apply upload_metadata_object|].
  assert (Hmeta : lookupObject (GcsObject.name (metadataObjectOf file2 d2 now2))
                    (upsert (videoObjectOf file2 d2 now2) (bucket w1)) <> None).
  { apply lookupObject_upsert_present.
    change (GcsObject.name (metadataObjectOf file2 d2 now2))
      with (metadataPathOf d2 now2).
    rewrite <- Hkey. unfold w1. now rewrite upload_metadata_object. }
  cbn [worldAfterUpload bucket]. fold w1.
  rewrite (upsert_length_present _ _ Hmeta). split.
  - apply upsert_length_bounds.
  - intros Hext. apply upsert_length_present.
    change (GcsObject.name (videoObjectOf file2 d2 now2))
      with (gcsPathOf file2 d2 now2).
    replace (gcsPathOf file2 d2 now2) with (gcsPathOf file1 d1 now1)
      by (unfold gcsPathOf; now rewrite Htitle, Hmonth, Hext).
    unfold w1. rewrite upload_video_object by apply upload_keys_differ.
    discriminate.
Qed.

End Overwrite.

(** *** Examples *)

Lemma upload_stores_both_objects_witness :
  exists (v : VideoMetadata.t) (w' : world),
    @uploadVideo demoRuntime demoFile 0%nat july2025
      (worldWith (demoDto "Cat Video" None)) = (inr v, w')
    /\ option_map GcsObject.content
         (lookupObject (lit "videos/2025/07/metadata/cat-video.json") (bucket w'))
       = Some (demoStringify v).
Proof.
  destruct (@upload_stores_both_objects demoRuntime demoFile 0%nat july2025
              (demoDto "Cat Video" None) (worldWith (demoDto "Cat Video" None)))
    as (v & w' & Hrun & _ & _ & Hmeta); [reflexivity|].
  exists v, w'. split; [exact Hrun|].
  change (lit "videos/" ++ yearMonth july2025 ++ lit "/metadata/"
          ++ @sanitizeFileName demoRuntime
               (UploadVideoDto.title (demoDto "Cat Video" None)) ++ lit ".json")
    with (lit "videos/2025/07/metadata/cat-video.json") in Hmeta.
  rewrite Hmeta. reflexivity.
Defined.

Lemma upload_keeps_other_objects_witness :
  lookupObject (lit "videos/2025/07/metadata/dog.json")
    (bucket (snd (@uploadVideo demoRuntime demoFile 0%nat july2025
                    (mkWorld {[ 0%nat := demoDto "cat" None ]} demoBucket []))))
  = lookupObject (lit "videos/2025/07/metadata/dog.json") demoBucket.
Proof.
  apply (@upload_keeps_other_objects demoRuntime demoFile 0%nat july2025
           (demoDto "cat" None)
           (mkWorld {[ 0%nat := demoDto "cat" None ]} demoBucket [])
           (lit "videos/2025/07/metadata/dog.json")).
  - reflexivity.
  - intros Heq. vm_compute in Heq. discriminate Heq.
  - intros Heq. vm_compute in Heq. discriminate Heq.
Defined.

Lemma upload_heap_frame_witness :
  heap (snd (@uploadVideo demoRuntime demoFile 0%nat july2025
               (mkWorld {[ 0%nat := demoDto "cat" (Some (TagsString (lit "a,b")));
                           1%nat := demoDto "dog" (Some (TagsString (lit "c,d"))) ]}
                  [] []))) !! 1%nat
  = Some (demoDto "dog" (Some (TagsString (lit "c,d")))).
Proof.
  destruct (@upload_heap_frame demoRuntime demoFile 0%nat july2025
              (demoDto "cat" (Some (TagsString (lit "a,b"))))
              (mkWorld {[ 0%nat := demoDto "cat" (Some (TagsString (lit "a,b")));
                          1%nat := demoDto "dog" (Some (TagsString (lit "c,d"))) ]}
                 [] [])) as [Hother _]; [reflexivity|].
  etransitivity; [apply Hother; discriminate | reflexivity].
Defined.

Lemma upload_same_title_overwrites_witness :
  exists (v1 v2 : VideoMetadata.t) (w1 w2 : world),
    @uploadVideo demoRuntime demoFile 0%nat july2025
      (mkWorld {[ 0%nat := demoDto "My Cat!" None; 1%nat := demoDto "my cat" None ]}
         [] []) = (inr v1, w1)
    /\ @uploadVideo demoRuntime demoFile 1%nat july2025 w1 = (inr v2, w2)
    /\ option_map GcsObject.content
         (lookupObject (lit "videos/2025/07/metadata/my-cat.json") (bucket w2))
       = Some (demoStringify v2)
    /\ length (bucket w2) = length (bucket w1).
Proof.
  destruct (@upload_same_title_overwrites demoRuntime demoFile demoFile
              0%nat 1%nat july2025 july2025
              (demoDto "My Cat!" None) (demoDto "my cat" None)
              (mkWorld {[ 0%nat := demoDto "My Cat!" None;
                          1%nat := demoDto "my cat" None ]} [] []))
    as (v1 & v2 & w1 & w2 & Hrun1 & Hrun2 & _ & _ & Hmeta & _ & Hlen);
    [reflexivity | reflexivity | discriminate | reflexivity | reflexivity |].
  exists v1, v2, w1, w2. split; [exact Hrun1|]. split; [exact Hrun2|].
  change (@metadataPathOf demoRuntime (demoDto "My Cat!" None) july2025)
    with (lit "videos/2025/07/metadata/my-cat.json") in Hmeta.
  rewrite Hmeta. split; [reflexivity | exact (Hlen eq_refl)].
Defined.

(** ** More on listing *)

Lemma startsWith_self_app (p s : jsstring) : startsWith p (p ++ s) = true.
Proof.
  induction p as [|a p IH]; [reflexivity|].
  cbn [app startsWith]. now rewrite N.eqb_refl, IH.
Qed.

Lemma includes_app (p a b : jsstring) : includes p (a ++ p ++ b) = true.
Proof.
  induction a as [|c a IH]; cbn [app].
  - destruct (p ++ b) eqn:Hpb; cbn [includes]; rewrite <- Hpb;
      now rewrite startsWith_self_app.
  - cbn [includes]. rewrite IH. apply orb_true_r.
Qed.

Lemma endsWith_app (p s : jsstring) : endsWith p (s ++ p) = true.
Proof. unfold endsWith. rewrite rev_app_distr. apply startsWith_self_app. Qed.

Lemma find_some_In {A} (f : A -> bool) (l : list A) (a : A) :
  List.find f l = Some a -> In a l.
Proof.
  induction l as [|x l IH]; cbn [List.find]; [discriminate|].
  destruct (f x); [intros [= ->]; now left | intros Hf; right; now apply IH].
Qed.

Section ListingMore.
Context `{Runtime}.

(** The loop over the files reads and never writes, and what it returns
    depends on the files alone. *)
Lemma forEachPush_reads (files : list GcsObject.t) (w w0 : world) :
  forEachPush (fun file => content ← download file; parseMetadata content) files w
  = (fst (forEachPush
            (fun file => content ← download file; parseMetadata content)
            files w0), w).
Proof.
  induction files as [|f files IH]; [reflexivity|].
  cbn [forEachPush]. rewrite !bind_run.
  unfold download at 1 3, parseMetadata at 1 3. cbn [mret M_ret].
  destruct (JSON_parse (GcsObject.content f)) as [message|v]; [reflexivity|].
  cbn [mret M_ret]. rewrite !bind_run, IH.
  destruct (forEachPush _ files w0) as [[e|vs] w1]; reflexivity.
Qed.

Lemma getAllVideos_reads (w w0 : world) :
  metadataFiles w = metadataFiles w0 ->
  getAllVideos w = (fst (getAllVideos w0), w).
Proof.
  intros Hfiles. rewrite !getAllVideos_run, Hfiles.
  rewrite (forEachPush_reads (metadataFiles w0) w w0).
  destruct (forEachPush _ (metadataFiles w0) w0) as [[e|vs] w1]; reflexivity.
Qed.

Lemma parsed_all (files : list GcsObject.t) :
  Forall (fun o => exists v, JSON_parse (GcsObject.content o) = inr v) files ->
  exists vs, Forall2 (fun o v => JSON_parse (GcsObject.content o) = inr v) files vs.
Proof.
  induction 1 as [|o files [v Hv] _ [vs IH]]; [now exists []|].
  exists (v :: vs). now constructor.
Qed.

Lemma parsed_In (files : list GcsObject.t) (vs : list VideoMetadata.t)
  (o : GcsObject.t) (v : VideoMetadata.t) :
  Forall2 (fun o v => JSON_parse (GcsObject.content o) = inr v) files vs ->
  In o files -> JSON_parse (GcsObject.content o) = inr v -> In v vs.
Proof.
  induction 1 as [|o' v' files vs Hov _ IH]; intros Hin Hv; [contradiction|].
  destruct Hin as [->|Hin]; [left; congruence | right; now apply IH].
Qed.

Lemma metadataObject_listed (file : MulterFile.t) (r : ref)
  (d : UploadVideoDto.t) (now : JsDate.t) (w : world) :
  In (metadataObjectOf file d now)
    (metadataFiles (worldAfterUpload file r d now w)).
Proof.
  unfold metadataFiles. apply List.filter_In. split.
  - apply List.filter_In. split.
    + eapply find_some_In. apply (upload_metadata_object file r d now w).
    + apply startsWith_self_app.
  - unfold isMetadataFile. cbn [metadataObjectOf GcsObject.name].
    unfold metadataPathOf. apply andb_true_iff. split.
    + rewrite app_assoc. apply includes_app.
    + rewrite !app_assoc. apply endsWith_app.
Qed.

(** Upload, then list: when the engine's JSON reads back the record it
    wrote and the metadata objects of the bucket parse, the record an upload
    returned is among the records of the next listing. *)
Theorem upload_then_listed (file : MulterFile.t) (metadata : ref)
  (now : JsDate.t) (d : UploadVideoDto.t) (w : world) :
  heap w !! metadata = Some d ->
  (forall v, fst (uploadVideo file metadata now w) = inr v ->
             JSON_parse (JSON_stringify v) = inr v) ->
  Forall (fun o => exists v, JSON_parse (GcsObject.content o) = inr v)
    (metadataFiles (snd (uploadVideo file metadata now w))) ->
  exists (v : VideoMetadata.t) (w' : world) (result : list VideoMetadata.t),
    uploadVideo file metadata now w = (inr v, w')
    /\ getAllVideos w' = (inr result, w')
    /\ In v result.
Proof.
  intros Hd. rewrite (uploadVideo_run file metadata now d w Hd).
  cbn [fst snd]. intros Hround Hparse.
  destruct (parsed_all _ Hparse) as [vs Hvs].
  exists (videoMetadataOf file d now), (worldAfterUpload file metadata d now w),
    (arraySort byUploadDateDesc vs).
  split; [reflexivity|]. split.
  - rewrite getAllVideos_run. now rewrite (forEachPush_parsed _ vs _ Hvs).
  - eapply Permutation_in; [symmetry; apply arraySort_perm|].
    eapply parsed_In; [exact Hvs | apply (metadataObject_listed file metadata)|].
    apply Hround. reflexivity.
Qed.

(** An object whose key is not a metadata key (not under videos/, or
    without /metadata/, or not ending in .json) has no influence on the
    listing, whatever its content and wherever it stands in the bucket. *)
Theorem getAllVideos_ignores_other_objects
  (hp : gmap ref UploadVideoDto.t) (ev : list event)
  (pre post : list GcsObject.t) (o : GcsObject.t) :
  startsWith (lit "videos/") (GcsObject.name o)
  && includes (lit "/metadata/") (GcsObject.name o)
  && endsWith (lit ".json") (GcsObject.name o) = false ->
  fst (getAllVideos (mkWorld hp (pre ++ o :: post) ev))
  = fst (getAllVideos (mkWorld hp (pre ++ post) ev)).
Proof.
  intros Hkey.
  rewrite (getAllVideos_reads (mkWorld hp (pre ++ o :: post) ev)
             (mkWorld hp (pre ++ post) ev)); [reflexivity|].
  unfold metadataFiles. rewrite !metadataFiles_filter. cbn [bucket].
  rewrite !List.filter_app. cbn [List.filter]. now rewrite Hkey.
Qed.

(** Listing, looking up and sampling only read: whether they return or
    throw, they leave the heap, the bucket and the log as they found them. *)
Theorem reads_leave_world (w : world) (title : jsstring) (random : nat -> nat)
  (count : option jsnum) :
  snd (getAllVideos w) = w
  /\ snd (getVideoById title w) = w
  /\ snd (getRandomVideos random count w) = w.
Proof.
  assert (Hall : snd (getAllVideos w) = w)
    by (now rewrite (getAllVideos_reads w w eq_refl)).
  split; [exact Hall|]. split.
  - unfold getVideoById. rewrite tryCatch_rethrow, bind_run. unfold getFiles.
    destruct (List.filter _ (bucket w)) as [|f files]; [reflexivity|].
    rewrite bind_run. unfold download, parseMetadata. cbn [mret M_ret].
    destruct (JSON_parse (GcsObject.content f)); reflexivity.
  - unfold getRandomVideos. rewrite tryCatch_rethrow, bind_run.
    destruct (getAllVideos w) as [[e|vs] w']; cbn [snd] in Hall; subst w';
      [reflexivity|].
    destruct vs; reflexivity.
Qed.

End ListingMore.

Lemma StronglySorted_lookup {A} (R : A -> A -> Prop) (l : list A)
  (i j : nat) (a b : A) :
  StronglySorted R l -> (i < j)%nat -> l !! i = Some a -> l !! j = Some b -> R a b.
Proof.
  intros Hs. revert i j. induction Hs as [|x l Hs IH Hx]; intros i j Hij Hi Hj.
  - discriminate Hi.
  - destruct j as [|j]; [lia|]. destruct i as [|i].
    + cbn in Hi, Hj. injection Hi as <-.
      rewrite Forall_forall in Hx. apply Hx. eapply list_elem_of_lookup_2, Hj.
    + cbn in Hi, Hj. apply (IH i j); [lia | exact Hi | exact Hj].
Qed.

Lemma filter_Permutation_bool {A} (f : A -> bool) (l1 l2 : list A) :
  Permutation l1 l2 -> Permutation (List.filter f l1) (List.filter f l2).
Proof.
  induction 1 as [|x l1 l2 _ IH|x y l|l1 l2 l3 _ IH1 _ IH2]; cbn [List.filter].
  - constructor.
  - destruct (f x); [now constructor | exact IH].
  - destruct (f x), (f y); try reflexivity. apply perm_swap.
  - now rewrite IH1.
Qed.

(** Among elements of pairwise different keys, the ones of a given key are
    the same in every arrangement. *)
Lemma filter_key_Permutation {A} (key : A -> Z) (t : Z) (l1 l2 : list A) :
  Permutation l1 l2 -> NoDup (List.map key l1) ->
  List.filter (fun a => key a =? t)%Z l1 = List.filter (fun a => key a =? t)%Z l2.
Proof.
  induction 1 as [|x l1 l2 Hp IH|x y l|l1 l2 l3 Hp1 IH1 Hp2 IH2];
    intros Hnd; cbn [List.filter List.map] in *.
  - reflexivity.
  - apply NoDup_cons in Hnd as [_ Hnd]. now rewrite IH.
  - destruct (key x =? t)%Z eqn:Hx, (key y =? t)%Z eqn:Hy; try reflexivity.
    apply Z.eqb_eq in Hx, Hy. apply NoDup_cons in Hnd as [Hnotin _].
    exfalso. apply Hnotin. rewrite Hx, Hy. now left.
  - rewrite IH1 by exact Hnd. apply IH2.
    assert (Hm : Permutation (List.map key l1) (List.map key l2))
      by now apply Permutation_map.
    now rewrite <- Hm.
Qed.

Section ListingOrderMore.
Context `{Runtime}.

(** Newest first, for any two records and not only for neighbours: in a
    listing of a stored catalog a record that comes earlier is never older
    than one that comes later; in particular the first record is the
    newest of all. *)
Theorem getAllVideos_newest_first (w : world) (vs : list VideoMetadata.t) :
  Forall2 (fun o v => JSON_parse (GcsObject.content o) = inr v)
    (metadataFiles w) vs ->
  Forall hasUploadTime vs ->
  exists result : list VideoMetadata.t,
    getAllVideos w = (inr result, w)
    /\ forall (i j : nat) (a b : VideoMetadata.t),
         (i < j)%nat -> result !! i = Some a -> result !! j = Some b ->
         (timeOf b <= timeOf a)%Z.
Proof.
  intros Hparse Hdates. exists (arraySort byUploadDateDesc vs). split.
  - rewrite getAllVideos_run. now rewrite (forEachPush_parsed _ vs w Hparse).
  - intros i j a b Hij Hi Hj.
    apply (StronglySorted_lookup (fun a b => (timeOf b <= timeOf a)%Z)
             (arraySort byUploadDateDesc vs) i j a b); auto.
    apply (arraySort_sorted byUploadDateDesc timeOf hasUploadTime
             byUploadDateDesc_key vs Hdates).
Qed.

Lemma parsed_Permutation (files1 files2 : list GcsObject.t)
  (vs1 vs2 : list VideoMetadata.t) :
  Permutation files1 files2 ->
  Forall2 (fun o v => JSON_parse (GcsObject.content o) = inr v) files1 vs1 ->
  Forall2 (fun o v => JSON_parse (GcsObject.content o) = inr v) files2 vs2 ->
  Permutation vs1 vs2.
Proof.
  intros Hperm. revert vs1 vs2.
  induction Hperm as [|o l1 l2 _ IH|o1 o2 l|l1 l2 l3 Hp1 IH1 Hp2 IH2];
    intros vs1 vs2 H1 H2.
  - inversion H1; inversion H2; subst. constructor.
  - inversion H1 as [|? v1 ? t1 Hv1 Ht1]; inversion H2 as [|? v2 ? t2 Hv2 Ht2];
      subst. assert (v1 = v2) by congruence. subst. constructor. now apply IH.
  - inversion H1 as [|? a1 ? t1 Ha1 Ht1]; subst.
    inversion Ht1 as [|? b1 ? u1 Hb1 Hu1]; subst.
    inversion H2 as [|? a2 ? t2 Ha2 Ht2]; subst.
    inversion Ht2 as [|? b2 ? u2 Hb2 Hu2]; subst.
    assert (a1 = b2) by congruence. assert (b1 = a2) by congruence. subst.
    assert (u1 = u2); [|subst; apply perm_swap].
    clear -Hu1 Hu2. revert u2 Hu2.
    induction Hu1 as [|? ? ? ? Hx _ IH]; intros u2 Hu2;
      inversion Hu2 as [|? ? ? ? Hy Hrest]; subst; [reflexivity|].
    f_equal; [congruence | now apply IH].
  - assert (Hall : Forall (fun o => exists v,
                       JSON_parse (GcsObject.content o) = inr v) l2).
    { eapply Permutation_Forall; [exact Hp1|].
      clear -H1. induction H1; constructor; eauto. }
    destruct (parsed_all l2 Hall) as [vsm Hm].
    transitivity vsm; [now apply IH1 | now apply IH2].
Qed.

(** When no two records share their upload time, the listing does not
    depend on the order in which the bucket lists its objects: two buckets
    with the same objects give the same listing. *)
Theorem getAllVideos_order_independent (w1 w2 : world)
  (vs1 vs2 : list VideoMetadata.t) :
  Permutation (bucket w1) (bucket w2) ->
  Forall2 (fun o v => JSON_parse (GcsObject.content o) = inr v)
    (metadataFiles w1) vs1 ->
  Forall2 (fun o v => JSON_parse (GcsObject.content o) = inr v)
    (metadataFiles w2) vs2 ->
  Forall hasUploadTime vs1 ->
  NoDup (List.map timeOf vs1) ->
  exists result : list VideoMetadata.t,
    getAllVideos w1 = (inr result, w1) /\ getAllVideos w2 = (inr result, w2).
Proof.
  intros Hbucket H1 H2 Hdates Hdistinct.
  assert (Hperm : Permutation vs1 vs2).
  { eapply parsed_Permutation; [|exact H1 | exact H2].
    unfold metadataFiles. now do 2 apply filter_Permutation_bool. }
  assert (Hdates2 : Forall hasUploadTime vs2)
    by (eapply Permutation_Forall; eassumption).
  exists (arraySort byUploadDateDesc vs1). split.
  - rewrite getAllVideos_run. now rewrite (forEachPush_parsed _ vs1 w1 H1).
  - rewrite getAllVideos_run, (forEachPush_parsed _ vs2 w2 H2). do 2 f_equal.
    apply (stable_sorted_unique timeOf).
    + apply (arraySort_sorted byUploadDateDesc timeOf hasUploadTime
               byUploadDateDesc_key vs2 Hdates2).
    + apply (arraySort_sorted byUploadDateDesc timeOf hasUploadTime
               byUploadDateDesc_key vs1 Hdates).
    + intros t.
      rewrite !(arraySort_stable byUploadDateDesc timeOf hasUploadTime
                  byUploadDateDesc_key t) by assumption.
      symmetry. now apply filter_key_Permutation.
Qed.

(** With no metadata object in the bucket the listing is empty, and so is
    every sample: for a count that is absent, zero, negative, not a number,
    or large, and at the endpoint for every count string. *)
Theorem empty_catalog (w : world) (random : nat -> nat) (count : option jsnum)
  (query : option jsstring) :
  metadataFiles w = [] ->
  getAllVideos w = (inr [], w)
  /\ getRandomVideos random count w = (inr [], w)
  /\ controller_getRandomVideos random query w = (inr [], w).
Proof.
  intros Hempty.
  assert (Hall : getAllVideos w = (inr [], w))
    by (rewrite getAllVideos_run, Hempty; reflexivity).
  split; [exact Hall|]. split.
  - now rewrite (getRandomVideos_run random count w w [] Hall).
  - unfold controller_getRandomVideos.
    now rewrite (getRandomVideos_run random _ w w [] Hall).
Qed.

End ListingOrderMore.

(** *** Examples *)

Lemma upload_then_listed_witness :
  exists (v : VideoMetadata.t) (w' : world) (result : list VideoMetadata.t),
    @uploadVideo demoRuntime demoFile 0%nat july2025
      (worldWith (demoDto "cat" None)) = (inr v, w')
    /\ @getAllVideos demoRuntime w' = (inr result, w')
    /\ In v result.
Proof.
  apply (@upload_then_listed demoRuntime demoFile 0%nat july2025
           (demoDto "cat" None) (worldWith (demoDto "cat" None))).
  - reflexivity.
  - intros v Hv. vm_compute in Hv. injection Hv as <-. reflexivity.
  - vm_compute metadataFiles. repeat constructor. eexists. reflexivity.
Defined.

Lemma getAllVideos_ignores_other_objects_witness :
  fst (@getAllVideos demoRuntime
         (mkWorld ∅ (demoObject "notes/metadata/readme.json" [] :: demoBucket) []))
  = fst (@getAllVideos demoRuntime demoWorld).
Proof.
  apply (@getAllVideos_ignores_other_objects demoRuntime ∅ [] [] demoBucket
           (demoObject "notes/metadata/readme.json" [])).
  reflexivity.
Defined.

Lemma getAllVideos_newest_first_witness :
  exists result : list VideoMetadata.t,
    @getAllVideos demoRuntime demoWorld = (inr result, demoWorld)
    /\ forall (i j : nat) (a b : VideoMetadata.t),
         (i < j)%nat -> result !! i = Some a -> result !! j = Some b ->
         (@timeOf demoRuntime b <= @timeOf demoRuntime a)%Z.
Proof.
  apply (@getAllVideos_newest_first demoRuntime demoWorld
           [foxVideo; catVideo; dogVideo; owlVideo]).
  - vm_compute metadataFiles. repeat constructor.
  - repeat constructor; discriminate.
Defined.

Lemma getAllVideos_order_independent_witness :
  exists result : list VideoMetadata.t,
    @getAllVideos demoRuntime (mkWorld ∅ [foxObject; catObject; dogObject] [])
    = (inr result, mkWorld ∅ [foxObject; catObject; dogObject] [])
    /\ @getAllVideos demoRuntime (mkWorld ∅ [dogObject; foxObject; catObject] [])
       = (inr result, mkWorld ∅ [dogObject; foxObject; catObject] []).
Proof.
  apply (@getAllVideos_order_independent demoRuntime
           (mkWorld ∅ [foxObject; catObject; dogObject] [])
           (mkWorld ∅ [dogObject; foxObject; catObject] [])
           [foxVideo; catVideo; dogVideo] [dogVideo; foxVideo; catVideo]).
  - apply (Permutation_app_comm [foxObject; catObject] [dogObject]).
  - vm_compute metadataFiles. repeat constructor.
  - vm_compute metadataFiles. repeat constructor.
  - repeat constructor; discriminate.
  - vm_compute (List.map _ _).
    repeat (apply NoDup_cons;
            split; [rewrite ?not_elem_of_cons, elem_of_nil; intuition discriminate|]).
    apply NoDup_nil. exact I.
Defined.

Lemma empty_catalog_witness :
  @getAllVideos demoRuntime (worldWith (demoDto "cat" None))
  = (inr [], worldWith (demoDto "cat" None))
  /\ @getRandomVideos demoRuntime (fun i => i) (Some NaN)
       (worldWith (demoDto "cat" None))
     = (inr [], worldWith (demoDto "cat" None))
  /\ @controller_getRandomVideos demoRuntime (fun i => i) (Some (lit "3"))
       (worldWith (demoDto "cat" None))
     = (inr [], worldWith (demoDto "cat" None)).
Proof.
  apply (@empty_catalog demoRuntime (worldWith (demoDto "cat" None)) (fun i => i)
           (Some NaN) (Some (lit "3"))).
  reflexivity.
Defined.

(** ** Reading a count *)

Ltac ascii_codes :=
  repeat match goal with
  | |- context [N_of_ascii ?a] =>
      let v := eval vm_compute in (N_of_ascii a) in
      change (N_of_ascii a) with v
  end.

Lemma lit_String (a : ascii) (s : string) :
  lit (String a s) = N_of_ascii a :: lit s.
Proof. reflexivity. Qed.

Lemma uint_chars_acc (d : Decimal.uint) (acc : positive) :
  fold_left digitStep (lit (NilEmpty.string_of_uint d)) (Z.pos acc)
  = Z.pos (Pos.of_uint_acc d acc).
Proof.
  revert acc. induction d as [|d IH|d IH|d IH|d IH|d IH|d IH|d IH|d IH|d IH|d IH];
    intros acc; cbn [NilEmpty.string_of_uint Pos.of_uint_acc];
    [reflexivity|..];
    rewrite lit_String; cbn [fold_left]; rewrite <- IH; f_equal;
    unfold digitStep; ascii_codes; lia.
Qed.

Lemma uint_chars_value (d : Decimal.uint) :
  fold_left digitStep (lit (NilEmpty.string_of_uint d)) 0%Z
  = Z.of_N (Pos.of_uint d).
Proof.
  induction d as [|d IH|d IH|d IH|d IH|d IH|d IH|d IH|d IH|d IH|d IH];
    cbn [NilEmpty.string_of_uint Pos.of_uint]; [reflexivity|..];
    rewrite lit_String; cbn [fold_left];
    [exact IH|..]; cbn [Z.of_N]; rewrite <- uint_chars_acc; reflexivity.
Qed.

Lemma uint_chars_digits (d : Decimal.uint) :
  Forall (fun c => isDigit c = true) (lit (NilEmpty.string_of_uint d)).
Proof.
  induction d; cbn [NilEmpty.string_of_uint]; [constructor|..];
    rewrite lit_String; constructor; (reflexivity || assumption).
Qed.

Lemma takeDigits_app (ds rest : jsstring) :
  Forall (fun c => isDigit c = true) ds ->
  match rest with c :: _ => isDigit c = false | [] => True end ->
  takeDigits (ds ++ rest) = ds.
Proof.
  intros Hds Hrest. induction Hds as [|c ds Hc _ IH]; cbn [app takeDigits].
  - destruct rest as [|c rest]; [reflexivity|]. cbn [takeDigits]. now rewrite Hrest.
  - now rewrite Hc, IH.
Qed.

Lemma string_of_uint_nonempty (d : Decimal.uint) :
  d <> Decimal.Nil ->
  exists c s, lit (NilEmpty.string_of_uint d) = c :: s /\ isDigit c = true.
Proof.
  intros Hd. pose proof (uint_chars_digits d) as Hdigits.
  destruct d; [contradiction|..]; cbn [NilEmpty.string_of_uint] in *;
    rewrite lit_String in *; apply Forall_cons_1 in Hdigits as [Hc _];
    eexists; eexists; (split; [reflexivity | exact Hc]).
Qed.

Lemma digitsValue_uint (d : Decimal.uint) :
  digitsValue (lit (NilEmpty.string_of_uint d)) = Z.of_N (Pos.of_uint d).
Proof. apply uint_chars_value. Qed.

Lemma parseInt10_digits (sign : Z) (c : N) (ds rest : jsstring) :
  Forall (fun c => isDigit c = true) (c :: ds) ->
  match rest with c :: _ => isDigit c = false | [] => True end ->
  parseInt10 ((c :: ds) ++ rest) = Int (digitsValue (c :: ds))
  /\ parseInt10 (45 :: (c :: ds) ++ rest) = Int (- digitsValue (c :: ds)).
Proof.
  intros Hds Hrest. pose proof (Forall_cons_1 _ _ _ Hds) as [Hc _].
  assert (Hspace : isSpace c = false) by (class_bool; lia).
  assert (Hminus : c <> 45) by (class_bool; lia).
  assert (Hplus : c <> 43) by (class_bool; lia).
  unfold parseInt10. split.
  - change ((c :: ds) ++ rest) with (c :: ds ++ rest).
    cbn [trimStart]. rewrite Hspace.
    assert (Hbody : (let '(sign, body) :=
                       match c :: ds ++ rest with
                       | 45 :: t' => ((-1)%Z, t')
                       | 43 :: t' => (1%Z, t')
                       | _ => (1%Z, c :: ds ++ rest)
                       end in
                     match takeDigits body with
                     | [] => NaN
                     | ds0 => Int (sign * digitsValue ds0)
                     end)
                    = match takeDigits (c :: ds ++ rest) with
                      | [] => NaN
                      | ds0 => Int (1 * digitsValue ds0)
                      end).
    { destruct c as [|p]; [reflexivity|].
      do 6 (destruct p as [p|p|]; try reflexivity); try lia;
        destruct p; reflexivity || lia. }
    refine (eq_trans Hbody _).
    change (c :: ds ++ rest) with ((c :: ds) ++ rest).
    rewrite (takeDigits_app (c :: ds) rest Hds Hrest). f_equal; lia.
  - cbn [trimStart]. replace (isSpace 45) with false by reflexivity.
    rewrite (takeDigits_app (c :: ds) rest Hds Hrest). f_equal; lia.
Qed.

(** A whole number written in decimal, as [String(n)] writes it, is read
    back by [parseInt(s, 10)] as that number, also when text that does not
    begin with a digit follows it. *)
Lemma parseInt10_numberToString (z : Z) (rest : jsstring) :
  match rest with c :: _ => isDigit c = false | [] => True end ->
  parseInt10 (numberToString z ++ rest) = Int z.
Proof.
  intros Hrest. rewrite <- (DecimalZ.of_to z) at 2.
  unfold numberToString, NilZero.string_of_int.
  assert (Huint : forall u, u <> Decimal.Nil ->
            NilZero.string_of_uint u = NilEmpty.string_of_uint u)
    by (intros [] Hu; try reflexivity; contradiction).
  assert (Hnonnil : forall u, Z.to_int z = Decimal.Pos u \/ Z.to_int z = Decimal.Neg u ->
            u <> Decimal.Nil).
  { intros u. unfold Z.to_int. destruct z; intros [[= <-]|[= <-]];
      try discriminate; apply DecimalPos.Unsigned.to_uint_nonnil. }
  destruct (Z.to_int z) as [u|u] eqn:Hz.
  - rewrite (Huint u) by (apply Hnonnil; now left).
    destruct (string_of_uint_nonempty u) as (c & ds & Hcs & _);
      [apply Hnonnil; now left|].
    pose proof (uint_chars_digits u) as Hdigits. rewrite Hcs in Hdigits.
    rewrite Hcs. rewrite (proj1 (parseInt10_digits 1 c ds rest Hdigits Hrest)).
    rewrite <- Hcs, digitsValue_uint. reflexivity.
  - rewrite lit_String, (Huint u) by (apply Hnonnil; now right).
    destruct (string_of_uint_nonempty u) as (c & ds & Hcs & _);
      [apply Hnonnil; now right|].
    pose proof (uint_chars_digits u) as Hdigits. rewrite Hcs in Hdigits.
    rewrite Hcs.
    change ((N_of_ascii "-" :: c :: ds) ++ rest) with (45 :: (c :: ds) ++ rest).
    rewrite (proj2 (parseInt10_digits 1 c ds rest Hdigits Hrest)).
    rewrite <- Hcs, digitsValue_uint. reflexivity.
Qed.

Section Count.
Context `{Runtime}.

(** A count given in decimal reaches the service as that number: for a
    safe integer [n], [GET /video/random?count=n] samples as
    [getRandomVideos(n)] does, and text after the digits ("12abc", "3
    videos") is ignored. *)
Theorem controller_decimal_count (random : nat -> nat) (z : Z) (rest : jsstring)
  (w : world) :
  (- 9007199254740991 <= z <= 9007199254740991)%Z ->
  match rest with c :: _ => isDigit c = false | [] => True end ->
  controller_getRandomVideos random (Some (numberToString z ++ rest)) w
  = getRandomVideos random (Some (Int z)) w.
Proof.
  intros _ Hrest. unfold controller_getRandomVideos.
  destruct (numberToString_head z) as (c & s & Hcs & _).
  pose proof (parseInt10_numberToString z rest Hrest) as Hparse.
  rewrite Hcs in *. cbn [app] in *. now rewrite Hparse.
Qed.

End Count.

Lemma controller_decimal_count_witness :
  @controller_getRandomVideos demoRuntime (fun i => i) (Some (lit "2abc")) demoWorld
  = (inr [dogVideo; catVideo], demoWorld).
Proof.
  etransitivity.
  - apply (@controller_decimal_count demoRuntime (fun i => i) 2 (lit "abc")
             demoWorld); [lia | reflexivity].
  - reflexivity.
Defined.

(** ** More on sampling *)

Lemma swap_app_l {A} (i j : nat) (l t : list A) :
  (i < length l)%nat -> (j < length l)%nat ->
  swap i j (l ++ t) = swap i j l ++ t.
Proof.
  intros Hi Hj. unfold swap.
  rewrite !lookup_app_l by assumption.
  destruct (l !! i) as [a|]; [|reflexivity].
  destruct (l !! j) as [b|]; [|reflexivity].
  rewrite insert_app_l by assumption.
  rewrite insert_app_l by (rewrite length_insert; assumption). reflexivity.
Qed.

Lemma shuffleFrom_app_l {A} (random : nat -> nat) (i : nat) (l t : list A) :
  (i < length l)%nat ->
  shuffleFrom random i (l ++ t) = shuffleFrom random i l ++ t.
Proof.
  revert l. induction i as [|i IH]; intros l Hi; [reflexivity|].
  cbn [shuffleFrom].
  assert (Hj : (random (S i) mod (S i + 1) < length l)%nat).
  { pose proof (Nat.mod_upper_bound (random (S i)) (S i + 1)). lia. }
  rewrite swap_app_l by assumption.
  apply IH. rewrite swap_length. lia.
Qed.

Lemma shuffleFrom_ext {A} (r1 r2 : nat -> nat) (i : nat) (arr : list A) :
  (forall k, (k <= i)%nat -> r1 k = r2 k) ->
  shuffleFrom r1 i arr = shuffleFrom r2 i arr.
Proof.
  revert arr. induction i as [|i IH]; intros arr Hext; [reflexivity|].
  cbn [shuffleFrom]. rewrite (Hext (S i)) by lia.
  apply IH. intros k Hk. apply Hext. lia.
Qed.

(** A swap with the last position can bring any element there. *)
Lemma swap_to_last {A} (n j : nat) (arr : list A) (x : A) :
  length arr = S n -> arr !! j = Some x ->
  exists init, swap n j arr = init ++ [x] /\ length init = n.
Proof.
  intros Hlen Hj.
  assert (Hlast : swap n j arr !! n = Some x).
  { unfold swap. destruct (arr !! n) as [a|] eqn:Hn.
    - rewrite Hj. destruct (decide (j = n)) as [->|Hne].
      + rewrite list_lookup_insert_eq by (rewrite length_insert; lia). congruence.
      + rewrite list_lookup_insert_ne by exact Hne.
        apply list_lookup_insert_eq. lia.
    - apply lookup_ge_None in Hn. lia. }
  exists (take n (swap n j arr)). split.
  - rewrite <- (take_S_r _ _ _ Hlast). symmetry. apply take_ge.
    rewrite swap_length. lia.
  - rewrite length_take, swap_length. lia.
Qed.

(** Every arrangement of an array is the outcome of the shuffle for some
    draws. *)
Lemma shuffleFrom_reaches {A} (n : nat) (arr target : list A) :
  length arr = S n -> Permutation target arr ->
  exists random, shuffleFrom random n arr = target.
Proof.
  revert arr target. induction n as [|n IH]; intros arr target Hlen Hperm.
  - exists (fun _ => 0%nat). cbn [shuffleFrom].
    destruct arr as [|a [|b arr]]; try discriminate Hlen.
    symmetry. now apply Permutation_singleton_r.
  - assert (Htlen : length target = S (S n))
      by (rewrite <- Hlen; now apply Permutation_length).
    destruct (exists_last (l := target)) as (tinit & x & ->);
      [intros ->; discriminate Htlen|].
    assert (Hx : x ∈ arr).
    { apply list_elem_of_In. eapply Permutation_in; [exact Hperm|].
      apply in_or_app. right. now left. }
    apply list_elem_of_lookup_1 in Hx as [j Hj].
    pose proof (lookup_lt_Some _ _ _ Hj) as Hjlt.
    destruct (swap_to_last (S n) j arr x Hlen Hj) as (init & Hswap & Hinit).
    assert (Hpi : Permutation tinit init).
    { apply (Permutation_app_inv_r [x]).
      rewrite <- Hswap. rewrite Hperm. symmetry. apply swap_perm. }
    destruct (IH init tinit Hinit Hpi) as [random' Hrandom'].
    exists (fun i => if decide (i = S n) then j else random' i).
    cbn [shuffleFrom]. rewrite decide_True by reflexivity.
    rewrite Nat.mod_small by lia. rewrite Hswap.
    rewrite shuffleFrom_app_l by lia. f_equal.
    rewrite <- Hrandom'. apply shuffleFrom_ext.
    intros k Hk. rewrite decide_False by lia. reflexivity.
Qed.

Lemma fisherYates_reaches {A} (arr target : list A) :
  Permutation target arr -> exists random, fisherYates random arr = target.
Proof.
  intros Hperm. unfold fisherYates. destruct arr as [|a arr].
  - exists (fun _ => 0%nat). symmetry. now apply Permutation_nil_r.
  - replace (length (a :: arr) - 1)%nat with (length arr) by (cbn [length]; lia).
    now apply shuffleFrom_reaches.
Qed.

Section Sampling.
Context `{Runtime}.

(** Whatever the count (absent, zero, negative, not a number, large), the
    sample is part of the catalog: together with some remainder it is a
    rearrangement of the listing, so no record is returned more often than
    the listing holds it and the sample is never longer than the catalog. *)
Theorem getRandomVideos_sample_of_catalog (random : nat -> nat)
  (count : option jsnum) (w w' : world) (allVideos : list VideoMetadata.t) :
  getAllVideos w = (inr allVideos, w') ->
  exists sample rest : list VideoMetadata.t,
    getRandomVideos random count w = (inr sample, w')
    /\ Permutation (sample ++ rest) allVideos.
Proof.
  intros Hall. rewrite (getRandomVideos_run random count w w' allVideos Hall).
  destruct allVideos as [|v0 vs]; [now exists [], []|].
  set (all := v0 :: vs). unfold slice0.
  match goal with |- context [take ?n (fisherYates random all)] =>
    exists (take n (fisherYates random all)), (drop n (fisherYates random all)) end.
  split; [reflexivity|]. rewrite take_drop. apply fisherYates_perm.
Qed.

(** Every arrangement can come out: for each ordering of the catalog there
    are draws of the random source with which the sample is the first
    [count] records of that ordering. So every record can be drawn, at
    every position. *)
Theorem getRandomVideos_any_order (z : Z) (w w' : world)
  (allVideos target : list VideoMetadata.t) :
  getAllVideos w = (inr allVideos, w') ->
  Permutation target allVideos ->
  (0 <= z)%Z ->
  exists random : nat -> nat,
    getRandomVideos random (Some (Int z)) w = (inr (take (Z.to_nat z) target), w').
Proof.
  intros Hall Hperm Hz.
  destruct (fisherYates_reaches allVideos target Hperm) as [random Hrandom].
  exists random. rewrite (getRandomVideos_run random _ w w' allVideos Hall).
  destruct allVideos as [|v0 vs].
  - apply Permutation_nil_r in Hperm. subst target. now rewrite take_nil.
  - rewrite Hrandom. cbn [Math_min]. unfold slice0.
    pose proof (Permutation_length Hperm) as Hlen.
    set (len := Z.of_nat (length (v0 :: vs))) in *.
    replace (Z.min z len <? 0)%Z with false by (symmetry; apply Z.ltb_ge; lia).
    do 2 f_equal.
    destruct (Z_le_gt_dec z len) as [Hle|Hgt].
    + f_equal. lia.
    + rewrite !take_ge by lia. reflexivity.
Qed.

(** One corrupt metadata object takes every reading endpoint down: the
    listing, and the sampling for every count, a count of zero included,
    fail with the SyntaxError of that object. *)
Theorem corrupt_metadata_fails_endpoints (w : world) (random : nat -> nat)
  (count : option jsnum) (query : option jsstring) :
  Exists (fun o => exists message, JSON_parse (GcsObject.content o) = inl message)
    (metadataFiles w) ->
  exists message : jsstring,
    controller_getAllVideos w = (inl (SyntaxError message), w)
    /\ getRandomVideos random count w = (inl (SyntaxError message), w)
    /\ controller_getRandomVideos random query w = (inl (SyntaxError message), w).
Proof.
  intros Hex.
  destruct (first_corrupt _ Hex) as (pre & o & post & message & Hfiles & Hpre & Ho).
  pose proof (getAllVideos_first_corrupt w pre post o message Hfiles Hpre Ho) as Hall.
  exists message. split; [exact Hall|]. split.
  - now apply getRandomVideos_throws.
  - unfold controller_getRandomVideos. now apply getRandomVideos_throws.
Qed.

End Sampling.

(** *** Examples *)

Lemma getRandomVideos_count_witness :
  exists sample : list VideoMetadata.t,
    @getRandomVideos demoRuntime (fun i => i + 1)%nat (Some (Int 100)) demoWorld
    = (inr sample, demoWorld)
    /\ length sample = 4%nat.
Proof.
  destruct (@getRandomVideos_count demoRuntime (fun i => i + 1)%nat 100 demoWorld
              demoWorld [dogVideo; catVideo; owlVideo; foxVideo])
    as (sample & Hrun & Hlen & _); [reflexivity | lia |].
  exists sample. split; [exact Hrun | exact Hlen].
Defined.

Lemma getRandomVideos_sample_of_catalog_witness :
  exists sample rest : list VideoMetadata.t,
    @getRandomVideos demoRuntime (fun i => i + 1)%nat (Some (Int (-1))) demoWorld
    = (inr sample, demoWorld)
    /\ Permutation (sample ++ rest) [dogVideo; catVideo; owlVideo; foxVideo].
Proof.
  apply (@getRandomVideos_sample_of_catalog demoRuntime (fun i => i + 1)%nat
           (Some (Int (-1))) demoWorld demoWorld).
  reflexivity.
Defined.

Lemma getRandomVideos_any_order_witness :
  exists random : nat -> nat,
    @getRandomVideos demoRuntime random (Some (Int 2)) demoWorld
    = (inr [foxVideo; owlVideo], demoWorld).
Proof.
  apply (@getRandomVideos_any_order demoRuntime 2 demoWorld demoWorld
           [dogVideo; catVideo; owlVideo; foxVideo]
           [foxVideo; owlVideo; catVideo; dogVideo]).
  - reflexivity.
  - apply Permutation_sym,
      (Permutation_rev [dogVideo; catVideo; owlVideo; foxVideo]).
  - lia.
Defined.

Lemma corrupt_metadata_fails_endpoints_witness :
  exists message : jsstring,
    @getRandomVideos demoRuntime (fun i => i) (Some (Int 0))
      (corruptWorld "videos/2025/07/metadata/cat.json")
    = (inl (SyntaxError message), corruptWorld "videos/2025/07/metadata/cat.json").
Proof.
  destruct (@corrupt_metadata_fails_endpoints demoRuntime
              (corruptWorld "videos/2025/07/metadata/cat.json") (fun i => i)
              (Some (Int 0)) None) as (message & _ & Hrandom & _).
  - vm_compute metadataFiles. apply Exists_cons_hd. eexists. reflexivity.
  - exists message. exact Hrandom.
Defined.

(** ** The record and the keys of an upload *)

Section Record.
Context `{Runtime}.

(** Whatever the form delivered as tags (nothing, an empty string, a
    comma-joined string, a list), the record that is returned and stored
    holds a list of tags, never a string; its description and category are
    strings, empty when the form had none; and its title is the title as
    given, not the sanitized one. *)
Theorem upload_record_shape (file : MulterFile.t) (metadata : ref)
  (now : JsDate.t) (d : UploadVideoDto.t) (w : world) :
  heap w !! metadata = Some d ->
  exists (v : VideoMetadata.t) (w' : world) (tags : list jsstring)
         (description category : jsstring),
    uploadVideo file metadata now w = (inr v, w')
    /\ VideoMetadata.tags v = Some (TagsArray tags)
    /\ VideoMetadata.description v = Some description
    /\ VideoMetadata.category v = Some category
    /\ (UploadVideoDto.description d = None -> description = [])
    /\ (UploadVideoDto.category d = None -> category = [])
    /\ (UploadVideoDto.tags d = None -> tags = [])
    /\ VideoMetadata.title v = UploadVideoDto.title d.
Proof.
  intros Hd.
  exists (videoMetadataOf file d now), (worldAfterUpload file metadata d now w).
  assert (Htags : exists tags,
            orEmptyArray (tagsAfterUpload (UploadVideoDto.tags d)) = TagsArray tags
            /\ (UploadVideoDto.tags d = None -> tags = [])).
  { destruct (UploadVideoDto.tags d) as [[[|c s]|l]|]; cbn;
      eexists; (split; [reflexivity|]); intros; (reflexivity || discriminate). }
  destruct Htags as (tags & Htags & Hnone).
  exists tags, (orEmptyString (UploadVideoDto.description d)),
    (orEmptyString (UploadVideoDto.category d)).
  split; [now apply uploadVideo_run|].
  cbn [videoMetadataOf VideoMetadata.tags VideoMetadata.description
         VideoMetadata.category VideoMetadata.title].
  rewrite Htags. repeat split; try exact Hnone; now intros ->.
Qed.

(** The month of an upload made in month [getMonth()] (0 for January to 11
    for December) is written with exactly two digits, which read as
    [getMonth() + 1]: the keys are videos/{year}/01/... to
    videos/{year}/12/... *)
Theorem upload_month_two_digits (now : JsDate.t) :
  (0 <= JsDate.getMonth now <= 11)%Z ->
  exists a b : N,
    yearMonth now = numberToString (JsDate.getFullYear now) ++ lit "/" ++ [a; b]
    /\ isDigit a = true /\ isDigit b = true
    /\ digitsValue [a; b] = (JsDate.getMonth now + 1)%Z.
Proof.
  intros Hmonth. unfold yearMonth.
  assert (Hcases : In (JsDate.getMonth now)
                     [0; 1; 2; 3; 4; 5; 6; 7; 8; 9; 10; 11]%Z).
  { destruct (JsDate.getMonth now) as [|p|p]; [now left | | lia].
    cbn [In]. lia. }
  cbn [In] in Hcases.
  repeat (destruct Hcases as [<-|Hcases];
          [eexists; eexists; split; [reflexivity|]; repeat split|]).
  contradiction.
Qed.

End Record.

Lemma upload_record_shape_witness :
  exists (v : VideoMetadata.t) (w' : world),
    @uploadVideo demoRuntime demoFile 0%nat july2025
      (worldWith (demoDto "cat" (Some (TagsString [])))) = (inr v, w')
    /\ VideoMetadata.tags v = Some (TagsArray []).
Proof.
  destruct (@upload_record_shape demoRuntime demoFile 0%nat july2025
              (demoDto "cat" (Some (TagsString [])))
              (worldWith (demoDto "cat" (Some (TagsString [])))))
    as (v & w' & tags & _ & _ & Hrun & Htags & _); [reflexivity|].
  exists v, w'. split; [exact Hrun|].
  rewrite (@uploadVideo_run demoRuntime demoFile 0%nat july2025
             (demoDto "cat" (Some (TagsString [])))
             (worldWith (demoDto "cat" (Some (TagsString [])))) eq_refl) in Hrun.
  injection Hrun as <- _. reflexivity.
Defined.

Lemma upload_month_two_digits_witness :
  exists a b : N,
    yearMonth (JsDate.mk 2025 11 (lit "2025-12-31T23:59:59.999Z"))
    = numberToString 2025 ++ lit "/" ++ [a; b]
    /\ isDigit a = true /\ isDigit b = true
    /\ digitsValue [a; b] = 12%Z.
Proof.
  apply (upload_month_two_digits (JsDate.mk 2025 11 (lit "2025-12-31T23:59:59.999Z"))).
  cbn [JsDate.getMonth]. lia.
Defined.

Section Urls.
Context `{Runtime}.

(** The two URLs of the returned record name the object that was stored:
    there is a key under which the bucket now holds the uploaded bytes, and
    the record's videoUrl is gs://{bucket}/{key} and its publicUrl is
    https://storage.googleapis.com/{bucket}/{key} for that same key; the
    format of the record is the extension that ends the key. *)
Theorem upload_urls_point_to_video (file : MulterFile.t) (metadata : ref)
  (now : JsDate.t) (d : UploadVideoDto.t) (w : world) :
  heap w !! metadata = Some d ->
  exists (v : VideoMetadata.t) (w' : world) (key stem : jsstring) (o : GcsObject.t),
    uploadVideo file metadata now w = (inr v, w')
    /\ lookupObject key (bucket w') = Some o
    /\ GcsObject.content o = MulterFile.buffer file
    /\ VideoMetadata.videoUrl v = lit "gs://" ++ bucketName ++ lit "/" ++ key
    /\ VideoMetadata.publicUrl v
       = lit "https://storage.googleapis.com/" ++ bucketName ++ lit "/" ++ key
    /\ key = stem ++ lit "." ++ VideoMetadata.format v.
Proof.
  intros Hd.
  exists (videoMetadataOf file d now), (worldAfterUpload file metadata d now w),
    (gcsPathOf file d now),
    (lit "videos/" ++ yearMonth now ++ lit "/"
     ++ sanitizeFileName (UploadVideoDto.title d)),
    (videoObjectOf file d now).
  split; [now apply uploadVideo_run|].
  split; [apply upload_video_object, upload_keys_differ|].
  repeat split. unfold gcsPathOf. cbn [videoMetadataOf VideoMetadata.format].
  now rewrite <- !app_assoc.
Qed.

End Urls.

Lemma upload_urls_point_to_video_witness :
  exists (v : VideoMetadata.t) (w' : world),
    @uploadVideo demoRuntime demoFile 0%nat july2025
      (worldWith (demoDto "cat" None)) = (inr v, w')
    /\ VideoMetadata.videoUrl v = lit "gs://short-form-project/videos/2025/07/cat.mp4".
Proof.
  destruct (@upload_urls_point_to_video demoRuntime demoFile 0%nat july2025
              (demoDto "cat" None) (worldWith (demoDto "cat" None)))
    as (v & w' & key & stem & o & Hrun & _); [reflexivity|].
  exists v, w'. split; [exact Hrun|].
  rewrite (@uploadVideo_run demoRuntime demoFile 0%nat july2025
             (demoDto "cat" None) (worldWith (demoDto "cat" None)) eq_refl) in Hrun.
  injection Hrun as <- _. reflexivity.
Defined.
